(** * call-gemini: admission control of the Gemini proxy function

    A shallow embedding of [netlify/functions/call-gemini.js]: the
    sliding-window rate limiter, the request validator and the handler that
    chains them in front of the upstream call.  *)

From Stdlib Require Import ZArith String Ascii List Bool Lia SpecFloat Sorted DecimalString.
From stdpp Require Import base option list gmap strings.

Local Open Scope Z_scope.
Set Warnings "-register-all".

(** ** Module-level constants (lines 2-4 of the source) *)

Definition RATE_LIMIT_WINDOW : Z := 60000.
Definition MAX_REQUESTS_PER_WINDOW : Z := 30.
Definition MAX_PAYLOAD_SIZE : Z := 100000.

(** ** The rate limiter

    [rateLimit] is the module-level [Map] from client address to the array of
    admission instants (milliseconds, as returned by [Date.now()]).  The
    arrays stored in it are always fresh results of [filter], never shared,
    so a pure list per key is an exact picture of the store. *)

Module RateLimiter.

Abbreviation store := (gmap string (list Z)).

(** The [Map] as it is when the module has just been loaded. *)
Definition rateLimit0 : store := ∅.

(** [checkRateLimit(ip)], with the instant read by [Date.now()] and the
    [Map] made explicit.  The result pairs the returned boolean with the
    [Map] after the call. *)
Definition checkRateLimit (now : Z) (ip : string) (rateLimit : store)
  : bool * store :=
  let userRequests := default [] (rateLimit !! ip) in
  let recentRequests :=
    filter (λ time, now - time < RATE_LIMIT_WINDOW) userRequests in
  if Z.of_nat (length recentRequests) >=? MAX_REQUESTS_PER_WINDOW
  then (false, rateLimit)
  else (true, <[ip := recentRequests ++ [now]]> rateLimit).

(** One admission check as it is seen from outside: who asked, when, and
    what was answered. *)
Record check := Check { who : string; at_ : Z; admitted : bool }.

(** A sequence of calls [(ip, now)] executed one after the other on the
    same [Map]; returns the final [Map] and the answers in call order. *)
Fixpoint run (calls : list (string * Z)) (rateLimit : store)
  : store * list check :=
  match calls with
  | [] => (rateLimit, [])
  | (ip, now) :: calls' =>
      let '(ok, rateLimit') := checkRateLimit now ip rateLimit in
      let '(final, answers) := run calls' rateLimit' in
      (final, Check ip now ok :: answers)
  end.

(** The instants of the admitted requests of [ip], in call order. *)
Definition admissions (ip : string) (answers : list check) : list Z :=
  at_ <$> filter (λ c, who c = ip ∧ admitted c = true) answers.

(** The instants of successive calls never go backwards. *)
Definition nondecreasing (calls : list (string * Z)) : Prop :=
  Sorted Z.le (calls.*2).

(** The instants of [ts] inside the trailing window that ends at [T],
    i.e. in the half-open interval (T - 60000, T]. *)
Definition in_window (T : Z) (ts : list Z) : list Z :=
  filter (λ t, T - t < RATE_LIMIT_WINDOW ∧ t <= T) ts.

(** The window test of line 9, as a predicate on stored instants. *)
Abbreviation recent now := (λ time : Z, now - time < RATE_LIMIT_WINDOW).

(** No stored array is longer than the maximum. *)
Definition bounded (rateLimit : store) : Prop :=
  map_Forall (λ _ ts, Z.of_nat (length ts) <= MAX_REQUESTS_PER_WINDOW)
             rateLimit.

(** What ties the [Map] to the history of answers when no call so far was
    later than [t0]: seen from any instant from [t0] on, the stored array
    of an address and its admitted instants have the same recent part; no
    admission is later than [t0]; no trailing window holds more than
    the maximum. *)
Definition consistent (t0 : Z) (rateLimit : store) (answers : list check)
  : Prop :=
  ∀ ip,
    (∀ now, t0 <= now →
       filter (recent now) (default [] (rateLimit !! ip))
       = filter (recent now) (admissions ip answers))
    ∧ Forall (λ t, t <= t0) (admissions ip answers)
    ∧ ∀ T, Z.of_nat (length (in_window T (admissions ip answers)))
           <= MAX_REQUESTS_PER_WINDOW.

End RateLimiter.

(** ** JavaScript values that the function handles *)

Module JS.

(** A value produced by [JSON.parse].  Numbers are IEEE 754 doubles;
    objects keep their properties in insertion order, each name once.
    [undefined], which [JSON.parse] never produces but a property read
    may, is the [None] of [option json]. *)
Inductive json : Type :=
| JNull
| JBool (b : bool)
| JNumber (x : SpecFloat.spec_float)
| JString (s : string)
| JArray (elements : list json)
| JObject (properties : list (string * json)).

(** What a JavaScript computation can throw here. *)
Inductive exn : Type :=
| Error (message : string)
| TypeError (message : string)
| SyntaxError (message : string)
| RangeError (message : string)
| Rejection (reason : string).

(** Completion of a computation: a value, or an exception in flight. *)
Inductive result (A : Type) : Type :=
| Ok (a : A)
| Throw (e : exn).
Arguments Ok {A} a.
Arguments Throw {A} e.

#[export] Instance result_ret : MRet result := @Ok.
#[export] Instance result_bind : MBind result :=
  λ A B f r, match r with Ok a => f a | Throw e => Throw e end.

(** [ToBoolean]: the truthiness used by [!v] and [a || b]. *)
Definition ToBoolean (v : option json) : bool :=
  match v with
  | None => false
  | Some JNull => false
  | Some (JBool b) => b
  | Some (JNumber (SpecFloat.S754_zero _)) => false
  | Some (JNumber SpecFloat.S754_nan) => false
  | Some (JNumber _) => true
  | Some (JString s) => negb (String.eqb s "")
  | Some (JArray _) => true
  | Some (JObject _) => true
  end.

(** [typeof v] for a parsed value. *)
Definition typeof (v : json) : string :=
  match v with
  | JNull => "object"
  | JBool _ => "boolean"
  | JNumber _ => "number"
  | JString _ => "string"
  | JArray _ => "object"
  | JObject _ => "object"
  end.

Definition Array_isArray (v : option json) : bool :=
  match v with
  | Some (JArray _) => true
  | _ => false
  end.

Fixpoint assoc {A : Type} (name : string) (properties : list (string * A))
  : option A :=
  match properties with
  | [] => None
  | (k, v) :: rest => if String.eqb k name then Some v else assoc name rest
  end.

(** The property read [v.name], for a [name] that no built-in prototype
    defines (the source only reads [contents]): reading from [null]
    throws, an object gives its own property or [undefined], an array or
    a primitive gives [undefined]. *)
Definition Get (v : json) (name : string) : result (option json) :=
  match v with
  | JNull => Throw (TypeError "Cannot read properties of null")
  | JObject properties => Ok (assoc name properties)
  | _ => Ok None
  end.

(** [s.length]: the number of UTF-16 code units of a string held as UTF-8
    bytes.  A continuation byte adds nothing, the lead byte of a four-byte
    sequence stands for a surrogate pair. *)
Definition code_units (c : ascii) : Z :=
  let n := Z.of_N (N_of_ascii c) in
  if n <? 128 then 1 else if n <? 192 then 0 else if n <? 240 then 1 else 2.

Fixpoint String_length (s : string) : Z :=
  match s with
  | EmptyString => 0
  | String c rest => code_units c + String_length rest
  end.

(** Truthiness of a value that is a string or [undefined]. *)
Definition truthy (a : option string) : bool :=
  match a with
  | Some s => negb (String.eqb s "")
  | None => false
  end.

(** [a || b] on such values. *)
Definition or_else (a b : option string) : option string :=
  if truthy a then a else b.

Definition dquote : ascii := "034"%char.

(** [s] between double quotes. *)
Definition quoted (s : string) : string :=
  String dquote (s +:+ String dquote "").

(** The text [{"error":"message"}]. *)
Definition error_text (message : string) : string :=
  "{" +:+ (quoted "error" +:+ ":" +:+ quoted message) +:+ "}".

(** A character that [JSON.stringify] copies as it is: no control
    character, no double quote, no backslash, and not the lead byte [ED],
    under which the surrogates are encoded. *)
Definition copied (c : ascii) : bool :=
  let n := Z.of_N (N_of_ascii c) in
  (32 <=? n) && negb (n =? 34) && negb (n =? 92) && negb (n =? 237).

Fixpoint plain (s : string) : bool :=
  match s with
  | EmptyString => true
  | String c rest => copied c && plain rest
  end.

(** The two built-ins the function relies on.  [JSON_parse] answers [None]
    when [JSON.parse] throws.  [JSON_stringify] may throw as well: an
    engine gives up with a [RangeError] on a value that is nested too
    deeply, at a depth that is its own.  What it is known to do is to
    print an object that holds one plain string under [error] as the
    text [{"error":"..."}]. *)
Class JSON_builtins := {
  JSON_parse : string → option json;
  JSON_stringify : json → result string;
  JSON_stringify_error :
    ∀ message, plain message = true →
      JSON_stringify (JObject [("error", JString message)])
      = Ok (error_text message)
}.

End JS.

(** ** The request validator (lines 20-35) *)

Module Validator.
Import JS.

Section WithBuiltins.
Context `{JSON_builtins}.

(** [validateRequest(requestBody)]: returns [true] or throws. *)
Definition validateRequest (requestBody : json) : result bool :=
  if negb (ToBoolean (Some requestBody))
     || negb (String.eqb (typeof requestBody) "object")
  then Throw (Error "Invalid request body")
  else
    contents ← Get requestBody "contents";
    if negb (ToBoolean contents) || negb (Array_isArray contents)
    then Throw (Error "Invalid contents format")
    else
      serialized ← JSON_stringify requestBody;
      let bodySize := String_length serialized in
      if bodySize >? MAX_PAYLOAD_SIZE
      then Throw (Error "Request payload too large")
      else Ok true.

End WithBuiltins.
End Validator.

(** ** The handler (lines 37-139) *)

Module Event.
(** [event.body]: missing, [null], or a string. *)
Inductive raw_body : Type :=
| BodyUndefined
| BodyNull
| BodyText (text : string).

(** What the hosting runtime passes in.  A property that is missing is
    [undefined]: [None] for [headers] and [httpMethod].  The values of
    [headers] are strings; a header that is not there reads as
    [undefined]. *)
Record t := mk {
  headers : option (gmap string string);
  httpMethod : option string;
  body : raw_body
}.
End Event.

Module Reply.
(** The object literal [{ statusCode, headers, body }] the handler
    returns. *)
Record t := mk {
  statusCode : Z;
  headers : list (string * string);
  body : string
}.
End Reply.

Module Upstream.
(** The second argument of [fetch]. *)
Record RequestInit := mkInit {
  method : string;
  headers : list (string * string);
  body : string
}.

(** The [Response] that [fetch] resolves to: its status and its body
    text ([None] when reading the body fails). *)
Record Response := mkResponse {
  status : Z;
  text : option string
}.

(** [response.ok]: the status is in the range 200-299. *)
Definition ok (response : Response) : bool :=
  (200 <=? status response) && (status response <=? 299).
End Upstream.

Module Handler.
Import JS RateLimiter Validator.

(** What one invocation reads from its surroundings: the clock,
    [process.env.GEMINI_API_KEY] and the answer of the upstream to a
    [fetch] ([Throw] for a rejected promise). *)
Record environment := Env {
  Date_now : Z;
  GEMINI_API_KEY : option string;
  upstream : string → Upstream.RequestInit → result Upstream.Response
}.

(** An argument of [console.error]. *)
Inductive logged : Type :=
| LogText (s : string)
| LogNumber (n : Z)
| LogValue (v : json)
| LogError (e : exn).

(** What the handler does to the outside, in order. *)
Inductive effect : Type :=
| ConsoleError (args : list logged)
| Fetch (url : string) (init : Upstream.RequestInit).

(** The state an invocation runs on: the module-level [Map] and the
    effects performed so far. *)
Record world := World {
  rateLimit : store;
  effects : list effect
}.

(** Computations of the handler: state passing, with exceptions. *)
Definition M (A : Type) : Type := world → result A * world.

#[export] Instance M_ret : MRet M := λ A a w, (Ok a, w).
#[export] Instance M_bind : MBind M :=
  λ A B f m w,
    match m w with
    | (Ok a, w') => f a w'
    | (Throw e, w') => (Throw e, w')
    end.

Definition throw {A : Type} (e : exn) : M A := λ w, (Throw e, w).

Definition lift {A : Type} (r : result A) : M A := λ w, (r, w).

(** [try { m } catch (error) { h error }] *)
Definition try_catch {A : Type} (m : M A) (h : exn → M A) : M A :=
  λ w,
    match m w with
    | (Ok a, w') => (Ok a, w')
    | (Throw e, w') => h e w'
    end.

Definition emit (e : effect) : M unit :=
  λ w, (Ok tt, World (rateLimit w) (effects w ++ [e])).

Definition console_error (args : list logged) : M unit :=
  emit (ConsoleError args).

(** The texts of the [error] fields. *)
Definition msg_rate_limited : string :=
  "リクエストが多すぎます。しばらくしてから再度お試しください。".
Definition msg_method_not_allowed : string := "Method not allowed".
Definition msg_invalid_request : string := "無効なリクエストです。".
Definition msg_server_config : string :=
  "サーバー設定エラー。管理者に連絡してください。".
Definition msg_upstream_rate_limited : string :=
  "APIのレート制限に達しました。しばらくしてから再度お試しください。".
Definition msg_upstream_failed : string :=
  "Gemini APIの呼び出しに失敗しました。".
Definition msg_server_error : string := "サーバーエラーが発生しました。".

(** Line 38: [headers['x-forwarded-for'] || headers['client-ip'] ||
    'unknown'] *)
Definition clientIp_of (headers : gmap string string) : string :=
  default "unknown"
    (or_else (or_else (headers !! "x-forwarded-for")
                      (headers !! "client-ip"))
             (Some "unknown")).

(** The outbound calls among some effects. *)
Definition fetches (es : list effect)
  : list (string * Upstream.RequestInit) :=
  omap (λ e, match e with
             | Fetch url init => Some (url, init)
             | ConsoleError _ => None
             end) es.

Definition GOOGLE_API_URL (apiKey : string) : string :=
  "https://generativelanguage.googleapis.com/v1beta/models/gemini-2.5-flash-preview-09-2025:generateContent?key="
  +:+ apiKey.

Section WithBuiltins.
Context `{JSON_builtins} (env : environment).

(** [JSON.stringify({ error: message })] *)
Definition error_body (message : string) : M string :=
  lift (JSON_stringify (JObject [("error", JString message)])).

(** [JSON.parse(event.body)]: the argument is first turned into a
    string. *)
Definition parse_body (body : Event.raw_body) : result json :=
  let text :=
    match body with
    | Event.BodyUndefined => "undefined"
    | Event.BodyNull => "null"
    | Event.BodyText s => s
    end in
  match JSON_parse text with
  | Some v => Ok v
  | None => Throw (SyntaxError "Unexpected token")
  end.

(** [response.json()]: reads the body and parses it; the promise
    rejects when either step fails. *)
Definition json_of (response : Upstream.Response) : result json :=
  match Upstream.text response with
  | None => Throw (Rejection "body stream failed")
  | Some s =>
      match JSON_parse s with
      | Some v => Ok v
      | None => Throw (SyntaxError "Unexpected token")
      end
  end.

(** [fetch(url, init)]: the call is made, then the upstream answers. *)
Definition fetch (url : string) (init : Upstream.RequestInit)
  : M Upstream.Response :=
  emit (Fetch url init);; lift (upstream env url init).

(** The call [checkRateLimit(clientIp)] on the module-level [Map]. *)
Definition call_checkRateLimit (ip : string) : M bool :=
  λ w,
    let '(allowed, rateLimit') :=
      checkRateLimit (Date_now env) ip (rateLimit w) in
    (Ok allowed, World rateLimit' (effects w)).

(** Lines 62-74: the guarded parse and validation. *)
Definition parse_and_validate (body : Event.raw_body) : result json :=
  requestBody ← parse_body body;
  _ ← validateRequest requestBody;
  Ok requestBody.

(** Lines 76-138: credential check and upstream call. *)
Definition forward (requestBody : json) : M Reply.t :=
  let apiKey := GEMINI_API_KEY env in
  if negb (truthy apiKey)
  then
    console_error [LogText "GEMINI_API_KEY is not configured"];;
    body ← error_body msg_server_config;
    mret (Reply.mk 500 [("Content-Type", "application/json")] body)
  else
    try_catch
      (payload ← lift (JSON_stringify requestBody);
       response ← fetch (GOOGLE_API_URL (default "" apiKey))
                    (Upstream.mkInit "POST"
                       [("Content-Type", "application/json")]
                       payload);
       if negb (Upstream.ok response)
       then
         let errorData :=
           match json_of response with
           | Ok d => d
           | Throw _ => JObject []
           end in
         console_error [LogText "Gemini API Error:";
                        LogNumber (Upstream.status response);
                        LogValue errorData];;
         body ← error_body
                  (if Upstream.status response =? 429
                   then msg_upstream_rate_limited
                   else msg_upstream_failed);
         mret (Reply.mk
                 (if Upstream.status response =? 429 then 429 else 500)
                 [("Content-Type", "application/json")]
                 body)
       else
         data ← lift (json_of response);
         body ← lift (JSON_stringify data);
         mret (Reply.mk 200
                 [("Content-Type", "application/json");
                  ("Cache-Control", "no-store, no-cache, must-revalidate");
                  ("X-Content-Type-Options", "nosniff")]
                 body))
      (λ error,
         console_error [LogText "Unexpected error:"; LogError error];;
         body ← error_body msg_server_error;
         mret (Reply.mk 500 [("Content-Type", "application/json")] body)).

(** [exports.handler] *)
Definition handler (event : Event.t) : M Reply.t :=
  headers ← match Event.headers event with
            | Some h => mret h
            | None =>
                throw (TypeError
                         "Cannot read properties of undefined (reading 'x-forwarded-for')")
            end;
  let clientIp := clientIp_of headers in
  allowed ← call_checkRateLimit clientIp;
  if negb allowed
  then
    body ← error_body msg_rate_limited;
    mret (Reply.mk 429
            [("Content-Type", "application/json"); ("Retry-After", "60")]
            body)
  else if negb (bool_decide (Event.httpMethod event = Some "POST"))
  then
    body ← error_body msg_method_not_allowed;
    mret (Reply.mk 405
            [("Content-Type", "application/json"); ("Allow", "POST")]
            body)
  else
    match parse_and_validate (Event.body event) with
    | Throw error =>
        body ← error_body msg_invalid_request;
        mret (Reply.mk 400 [("Content-Type", "application/json")] body)
    | Ok requestBody => forward requestBody
    end.

(** The state right after the admission check of line 40. *)
Definition checked (headers : gmap string string) (w : world) : world :=
  World (checkRateLimit (Date_now env) (clientIp_of headers)
                        (rateLimit w)).2
        (effects w).

(** Whether line 40 lets the request through. *)
Definition admits (headers : gmap string string) (w : world) : bool :=
  (checkRateLimit (Date_now env) (clientIp_of headers) (rateLimit w)).1.

(** The conditions under which the specification calls a request body
    invalid, in its words: the raw body does not parse as JSON; or the
    parsed body is not an object (it is null, a primitive or an array); or
    its [contents] is absent or not an array; or its re-serialised length
    exceeds 100,000 characters. *)
Definition is_plain_object (v : json) : bool :=
  match v with
  | JObject _ => true
  | _ => false
  end.

Definition contents_is_array (v : json) : bool :=
  match v with
  | JObject properties =>
      match assoc "contents" properties with
      | Some (JArray _) => true
      | _ => false
      end
  | _ => false
  end.

Definition invalid_request (body : Event.raw_body) : Prop :=
  match parse_body body with
  | Throw _ => True
  | Ok parsed =>
      is_plain_object parsed = false
      ∨ contents_is_array parsed = false
      ∨ ∃ serialized, JSON_stringify parsed = Ok serialized
                      ∧ String_length serialized > 100000
  end.

(** One more way for a body to be turned down: it parses, but it cannot
    be serialised again. *)
Definition not_serializable (body : Event.raw_body) : Prop :=
  ∃ parsed e, parse_body body = Ok parsed
              ∧ JSON_stringify parsed = Throw e.

End WithBuiltins.
End Handler.

(** ** A reference implementation of the two built-ins

    [JSON.stringify] and [JSON.parse] as ECMAScript defines them, on strings
    held as UTF-8 bytes, with a bound on the nesting that the serialiser
    can follow.  The properties of the handler are proved for any
    [JSON_builtins]; this instance serves to run the model on concrete
    requests. *)

Module Reference.
Import JS.

Definition backslash : ascii := "092"%char.

Definition code (c : ascii) : Z := Z.of_N (N_of_ascii c).
Definition char_of (n : Z) : ascii := ascii_of_N (Z.to_N n).

Fixpoint rev_onto (s acc : string) : string :=
  match s with
  | EmptyString => acc
  | String c rest => rev_onto rest (String c acc)
  end.

Definition decimal (n : Z) : string :=
  NilZero.string_of_uint (N.to_uint (Z.to_N n)).

Definition zeros (n : Z) : string :=
  string_of_list_ascii (replicate (Z.to_nat n) "0"%char).

(** *** Numbers: [Number::toString] and the value of a decimal literal *)

(** The double nearest to [M * 10^E] (ties to even), for [M >= 0]. *)
Definition double_of_decimal (negative : bool) (M E : Z) : spec_float :=
  match M with
  | Zpos m =>
      if 0 <=? E
      then binary_normalize 53 1024 (cond_Zopp negative (M * 10 ^ E)) 0 negative
      else SFdiv 53 1024 (S754_finite negative m 0)
                 (S754_finite false (Z.to_pos (10 ^ (- E))) 0)
  | _ => S754_zero negative
  end.

(** [floor (num / den / 10^p)] *)
Definition scaled_floor (num den p : Z) : Z :=
  if 0 <=? p then num / (den * 10 ^ p) else (num * 10 ^ (- p)) / den.

(** The least [n] from [n0] on with [num / den < 10^n]. *)
Fixpoint magnitude (fuel : nat) (num den n0 : Z) : Z :=
  match fuel with
  | O => n0
  | S fuel' =>
      if scaled_floor num den n0 =? 0 then n0
      else magnitude fuel' num den (n0 + 1)
  end.

(** The shortest decimal [s * 10^p] that reads back as the double
    [m * 2^e], trying [k] = 1, 2, ... digits; among two candidates of the
    same length the one closer to the double, the even one on a tie. *)
Fixpoint shortest (fuel : nat) (m : positive) (e num den n k : Z) : Z * Z :=
  let p := n - k in
  let lo := scaled_floor num den p in
  let hi := lo + 1 in
  let reads_back s :=
    match SFcompare (double_of_decimal false s p) (S754_finite false m e) with
    | Some Eq => true
    | _ => false
    end in
  let twice_x_vs_middle :=
    if 0 <=? p then 2 * num ?= (lo + hi) * 10 ^ p * den
    else 2 * num * 10 ^ (- p) ?= (lo + hi) * den in
  match fuel with
  | O => (lo, p)
  | S fuel' =>
      match reads_back lo, reads_back hi with
      | true, true =>
          match twice_x_vs_middle with
          | Lt => (lo, p)
          | Gt => (hi, p)
          | Eq => if Z.even lo then (lo, p) else (hi, p)
          end
      | true, false => (lo, p)
      | false, true => (hi, p)
      | false, false => shortest fuel' m e num den n (k + 1)
      end
  end.

(** Drops the trailing zeros of a digit string given in reverse, keeping
    at least one digit. *)
Fixpoint strip_zeros (rev_digits : string) : string :=
  match rev_digits with
  | String c rest =>
      if Ascii.eqb c "0" && negb (String.eqb rest "")
      then strip_zeros rest
      else rev_digits
  | EmptyString => EmptyString
  end.

Definition substring_from (n : Z) (s : string) : string :=
  string_of_list_ascii (drop (Z.to_nat n) (list_ascii_of_string s)).
Definition substring_to (n : Z) (s : string) : string :=
  string_of_list_ascii (take (Z.to_nat n) (list_ascii_of_string s)).

(** [Number::toString] of the positive double [m * 2^e]. *)
Definition positive_to_string (m : positive) (e : Z) : string :=
  let '(num, den) :=
    if 0 <=? e then (Zpos m * 2 ^ e, 1) else (Zpos m, 2 ^ (- e)) in
  let bits := Zpos (digits2_pos m) + e in
  let n0 := magnitude 8 num den ((bits - 1) * 30103 / 100000 - 2) in
  let '(s, p) := shortest 17 m e num den n0 1 in
  let all_digits := decimal s in
  let digits := rev_onto (strip_zeros (rev_onto all_digits "")) "" in
  let k := Z.of_nat (String.length digits) in
  let n := p + Z.of_nat (String.length all_digits) in
  if (k <=? n) && (n <=? 21) then digits +:+ zeros (n - k)
  else if (0 <? n) && (n <=? 21)
  then substring_to n digits +:+ "." +:+ substring_from n digits
  else if (-6 <? n) && (n <=? 0) then "0." +:+ zeros (- n) +:+ digits
  else
    let exponent :=
      (if 0 <=? n - 1 then "e+" else "e-") +:+ decimal (Z.abs (n - 1)) in
    if k =? 1 then digits +:+ exponent
    else substring_to 1 digits +:+ "." +:+ substring_from 1 digits
         +:+ exponent.

(** A number as [JSON.stringify] prints it: [null] unless finite. *)
Definition number_to_json (x : spec_float) : string :=
  match x with
  | S754_zero _ => "0"
  | S754_finite negative m e =>
      (if negative then "-" else "") +:+ positive_to_string m e
  | _ => "null"
  end.

(** *** [JSON.stringify] *)

Definition hex_digit (n : Z) : ascii :=
  if n <? 10 then char_of (48 + n) else char_of (87 + n).

(** The escape [\uXXXX] of a UTF-16 code unit. *)
Definition unicode_escape (cu : Z) : string :=
  String backslash
    (String "u"
       (String (hex_digit (cu / 4096))
          (String (hex_digit (cu / 256 mod 16))
             (String (hex_digit (cu / 16 mod 16))
                (String (hex_digit (cu mod 16)) ""))))).

(** The inside of a quoted string.  Bytes [ED A0..BF xx] are the generalised
    UTF-8 of a lone surrogate, which is printed as an escape. *)
Fixpoint quote_body (s : string) : string :=
  match s with
  | EmptyString => EmptyString
  | String c rest =>
      let n := code c in
      if n =? 8 then String backslash (String "b" (quote_body rest))
      else if n =? 9 then String backslash (String "t" (quote_body rest))
      else if n =? 10 then String backslash (String "n" (quote_body rest))
      else if n =? 12 then String backslash (String "f" (quote_body rest))
      else if n =? 13 then String backslash (String "r" (quote_body rest))
      else if n =? 34 then String backslash (String dquote (quote_body rest))
      else if n =? 92 then String backslash (String backslash (quote_body rest))
      else if n <? 32 then unicode_escape n +:+ quote_body rest
      else
        match rest with
        | String c2 (String c3 rest') =>
            if (n =? 237) && (160 <=? code c2)
            then unicode_escape
                   (53248 + (code c2 - 128) * 64 + (code c3 - 128))
                 +:+ quote_body rest'
            else String c (quote_body rest)
        | _ => String c (quote_body rest)
        end
  end.

Definition quote (s : string) : string :=
  String dquote (quote_body s +:+ String dquote "").

Fixpoint join (separator : string) (parts : list string) : string :=
  match parts with
  | [] => ""
  | [part] => part
  | part :: rest => part +:+ separator +:+ join separator rest
  end.

Fixpoint stringify (v : json) : string :=
  match v with
  | JNull => "null"
  | JBool true => "true"
  | JBool false => "false"
  | JNumber x => number_to_json x
  | JString s => quote s
  | JArray elements =>
      "[" +:+ join "," (List.map stringify elements) +:+ "]"
  | JObject properties =>
      "{" +:+ join ","
                (List.map (λ property,
                             let '(k, v') := property in
                             quote k +:+ ":" +:+ stringify v')
                          properties)
          +:+ "}"
  end.

(** *** [JSON.parse] *)

Definition is_whitespace (c : ascii) : bool :=
  let n := code c in (n =? 32) || (n =? 9) || (n =? 10) || (n =? 13).

Fixpoint skip_whitespace (s : string) : string :=
  match s with
  | String c rest => if is_whitespace c then skip_whitespace rest else s
  | EmptyString => s
  end.

Definition digit_value (c : ascii) : option Z :=
  let n := code c in
  if (48 <=? n) && (n <=? 57) then Some (n - 48) else None.

Definition hex_value (c : ascii) : option Z :=
  let n := code c in
  if (48 <=? n) && (n <=? 57) then Some (n - 48)
  else if (65 <=? n) && (n <=? 70) then Some (n - 55)
  else if (97 <=? n) && (n <=? 102) then Some (n - 87)
  else None.

(** Reads a run of digits: its value on top of [acc], how many were read,
    and what follows. *)
Fixpoint digits (s : string) (acc count : Z) : Z * Z * string :=
  match s with
  | String c rest =>
      match digit_value c with
      | Some d => digits rest (10 * acc + d) (count + 1)
      | None => (acc, count, s)
      end
  | EmptyString => (acc, count, s)
  end.

(** A number token: [-]? int frac? exp?, with no leading zero. *)
Definition number (s : string) : option (json * string) :=
  let '(negative, s1) :=
    match s with
    | String "-" rest => (true, rest)
    | _ => (false, s)
    end in
  let integer_part :=
    match s1 with
    | String "0" rest => Some (0, rest)
    | _ => let '(n, count, rest) := digits s1 0 0 in
           if count =? 0 then None else Some (n, rest)
    end in
  match integer_part with
  | None => None
  | Some (int, s2) =>
      let fraction :=
        match s2 with
        | String "." rest =>
            let '(n, count, rest') := digits rest int 0 in
            if count =? 0 then None else Some (n, count, rest')
        | _ => Some (int, 0, s2)
        end in
      match fraction with
      | None => None
      | Some (mantissa, scale, s3) =>
          let exponent :=
            match s3 with
            | String c rest =>
                if Ascii.eqb c "e" || Ascii.eqb c "E"
                then
                  let '(minus, rest1) :=
                    match rest with
                    | String "-" r => (true, r)
                    | String "+" r => (false, r)
                    | _ => (false, rest)
                    end in
                  let '(n, count, rest2) := digits rest1 0 0 in
                  if count =? 0 then None
                  else Some (if minus then - n else n, rest2)
                else Some (0, s3)
            | EmptyString => Some (0, s3)
            end in
          match exponent with
          | None => None
          | Some (e, s4) =>
              Some (JNumber (double_of_decimal negative mantissa (e - scale)),
                    s4)
          end
      end
  end.

(** Generalised UTF-8 of a code point (a lone surrogate included). *)
Definition utf8 (cp : Z) : string :=
  if cp <? 128 then String (char_of cp) ""
  else if cp <? 2048
  then String (char_of (192 + cp / 64)) (String (char_of (128 + cp mod 64)) "")
  else if cp <? 65536
  then String (char_of (224 + cp / 4096))
         (String (char_of (128 + cp / 64 mod 64))
            (String (char_of (128 + cp mod 64)) ""))
  else String (char_of (240 + cp / 262144))
         (String (char_of (128 + cp / 4096 mod 64))
            (String (char_of (128 + cp / 64 mod 64))
               (String (char_of (128 + cp mod 64)) ""))).

(** Four hexadecimal digits. *)
Definition hex4 (s : string) : option (Z * string) :=
  match s with
  | String c1 (String c2 (String c3 (String c4 rest))) =>
      match hex_value c1, hex_value c2, hex_value c3, hex_value c4 with
      | Some h1, Some h2, Some h3, Some h4 =>
          Some (4096 * h1 + 256 * h2 + 16 * h3 + h4, rest)
      | _, _, _, _ => None
      end
  | _ => None
  end.

(** Appends a UTF-16 code unit to the bytes read so far ([acc], last byte
    first).  A low surrogate that comes right after a high one, however
    either was written, makes one code point with it. *)
Definition push_unit (cu : Z) (acc : string) : string :=
  let alone := rev_onto (utf8 cu) acc in
  if (56320 <=? cu) && (cu <=? 57343)
  then
    match acc with
    | String b3 (String b2 (String b1 acc')) =>
        if (code b1 =? 237) && (160 <=? code b2) && (code b2 <=? 175)
        then
          let high := 53248 + (code b2 - 128) * 64 + (code b3 - 128) in
          rev_onto (utf8 (65536 + (high - 55296) * 1024 + (cu - 56320))) acc'
        else alone
    | _ => alone
    end
  else alone.

(** The characters of a string token after its opening quote; [acc] holds
    the bytes read so far, last first. *)
Fixpoint characters (fuel : nat) (s acc : string) : option (string * string) :=
  match fuel, s with
  | S fuel', String c rest =>
      if Ascii.eqb c dquote then Some (rev_onto acc "", rest)
      else if Ascii.eqb c backslash
      then
        match rest with
        | String e rest' =>
            let simple (n : Z) :=
              characters fuel' rest' (String (char_of n) acc) in
            if Ascii.eqb e dquote then simple 34
            else if Ascii.eqb e backslash then simple 92
            else if Ascii.eqb e "/" then simple 47
            else if Ascii.eqb e "b" then simple 8
            else if Ascii.eqb e "f" then simple 12
            else if Ascii.eqb e "n" then simple 10
            else if Ascii.eqb e "r" then simple 13
            else if Ascii.eqb e "t" then simple 9
            else if Ascii.eqb e "u"
            then
              match hex4 rest' with
              | Some (cu, rest'') =>
                  characters fuel' rest'' (push_unit cu acc)
              | None => None
              end
            else None
        | EmptyString => None
        end
      else if code c <? 32 then None
      else
        match rest with
        | String c2 (String c3 rest') =>
            if (code c =? 237) && (176 <=? code c2) && (code c2 <=? 191)
            then characters fuel' rest'
                   (push_unit (53248 + (code c2 - 128) * 64 + (code c3 - 128))
                              acc)
            else characters fuel' rest (String c acc)
        | _ => characters fuel' rest (String c acc)
        end
  | _, _ => None
  end.

Definition string_token (s : string) : option (string * string) :=
  characters (String.length s) s "".

(** Property names that are array indices come first in an object, in
    increasing order. *)
Definition array_index (k : string) : option Z :=
  let '(n, count, rest) := digits k 0 0 in
  if String.eqb rest "" && (0 <? count)
     && (String.eqb k "0" || negb (String.eqb (substring_to 1 k) "0"))
     && (n <? 4294967295)
  then Some n else None.

Fixpoint replace_property (k : string) (v : json)
    (properties : list (string * json)) : option (list (string * json)) :=
  match properties with
  | [] => None
  | (k', v') :: rest =>
      if String.eqb k' k then Some ((k, v) :: rest)
      else option_map (cons (k', v')) (replace_property k v rest)
  end.

Fixpoint insert_index (i : Z) (k : string) (v : json)
    (properties : list (string * json)) : list (string * json) :=
  match properties with
  | [] => [(k, v)]
  | (k', v') :: rest =>
      match array_index k' with
      | Some j => if j <? i then (k', v') :: insert_index i k v rest
                  else (k, v) :: properties
      | None => (k, v) :: properties
      end
  end.

(** Defining a property on the object under construction: a name seen
    before keeps its place and takes the new value. *)
Definition define_property (k : string) (v : json)
    (properties : list (string * json)) : list (string * json) :=
  match replace_property k v properties with
  | Some properties' => properties'
  | None =>
      match array_index k with
      | Some i => insert_index i k v properties
      | None => properties ++ [(k, v)]
      end
  end.

Definition literal (word : string) (v : json) (s : string)
  : option (json * string) :=
  if String.prefix word s
  then Some (v, substring_from (Z.of_nat (String.length word)) s)
  else None.

Fixpoint value (fuel : nat) (s : string) : option (json * string) :=
  match fuel with
  | O => None
  | S fuel' =>
      match skip_whitespace s with
      | EmptyString => None
      | String c rest =>
          if Ascii.eqb c "{"
          then
            match skip_whitespace rest with
            | String "}" rest' => Some (JObject [], rest')
            | _ => members fuel' rest []
            end
          else if Ascii.eqb c "["
          then
            match skip_whitespace rest with
            | String "]" rest' => Some (JArray [], rest')
            | _ => elements fuel' rest []
            end
          else if Ascii.eqb c dquote
          then
            match string_token rest with
            | Some (text, rest') => Some (JString text, rest')
            | None => None
            end
          else if Ascii.eqb c "t" then literal "true" (JBool true) (String c rest)
          else if Ascii.eqb c "f" then literal "false" (JBool false) (String c rest)
          else if Ascii.eqb c "n" then literal "null" JNull (String c rest)
          else number (String c rest)
      end
  end
with elements (fuel : nat) (s : string) (acc : list json)
  : option (json * string) :=
  match fuel with
  | O => None
  | S fuel' =>
      match value fuel' s with
      | None => None
      | Some (v, rest) =>
          match skip_whitespace rest with
          | String "," rest' => elements fuel' rest' (v :: acc)
          | String "]" rest' => Some (JArray (rev (v :: acc)), rest')
          | _ => None
          end
      end
  end
with members (fuel : nat) (s : string) (acc : list (string * json))
  : option (json * string) :=
  match fuel with
  | O => None
  | S fuel' =>
      match skip_whitespace s with
      | String c rest =>
          if Ascii.eqb c dquote
          then
            match string_token rest with
            | None => None
            | Some (k, rest1) =>
                match skip_whitespace rest1 with
                | String ":" rest2 =>
                    match value fuel' rest2 with
                    | None => None
                    | Some (v, rest3) =>
                        let acc' := define_property k v acc in
                        match skip_whitespace rest3 with
                        | String "," rest4 => members fuel' rest4 acc'
                        | String "}" rest4 => Some (JObject acc', rest4)
                        | _ => None
                        end
                    end
                | _ => None
                end
            end
          else None
      | EmptyString => None
      end
  end.

(** [JSON.parse(text)]: one value, with nothing but white space around
    it.  The fuel covers every call: each one consumes a character. *)
Definition parse (text : string) : option json :=
  match value (2 * String.length text + 2) text with
  | Some (v, rest) =>
      if String.eqb (skip_whitespace rest) "" then Some v else None
  | None => None
  end.

(** How deeply arrays and objects are nested in a value. *)
Fixpoint depth (v : json) : Z :=
  match v with
  | JArray elements =>
      1 + fold_right (λ element deepest, Z.max (depth element) deepest)
                     0 elements
  | JObject properties =>
      1 + fold_right (λ property deepest,
                        let '(_, v') := property in Z.max (depth v') deepest)
                     0 properties
  | _ => 0
  end.

(** [JSON.stringify] in an engine that follows at most [limit] levels of
    nesting (and at least one) before it gives up. *)
Definition stringify_within (limit : Z) (v : json) : result string :=
  if depth v <=? Z.max 1 limit
  then Ok (stringify v)
  else Throw (RangeError "Maximum call stack size exceeded").

Lemma quote_body_plain (s : string) : plain s = true → quote_body s = s.
Proof.
  induction s as [|c rest IH]; [done|].
  cbn [plain]. intros [Hc Hrest]%andb_prop. specialize (IH Hrest).
  unfold copied in Hc. cbn [quote_body]. cbv zeta. fold (code c).
  fold (code c) in Hc.
  apply andb_prop in Hc as [[[H32 H34]%andb_prop H92]%andb_prop H237].
  apply Z.leb_le in H32.
  apply negb_true_iff, Z.eqb_neq in H34, H92, H237.
  repeat match goal with
         | |- context [code c =? ?k] =>
             destruct (Z.eqb_spec (code c) k) as [?|_]; [lia|]
         end.
  destruct (Z.ltb_spec (code c) 32) as [?|_]; [lia|].
  rewrite IH. by destruct rest as [|c2 [|c3 rest']].
Qed.

Lemma stringify_error_text (message : string) :
  plain message = true →
  stringify (JObject [("error", JString message)]) = error_text message.
Proof.
  intros Hplain. unfold error_text, quoted. cbn [stringify List.map join].
  unfold quote. rewrite (quote_body_plain message Hplain).
  by rewrite (quote_body_plain "error" eq_refl).
Qed.

Lemma stringify_within_error (limit : Z) (message : string) :
  plain message = true →
  stringify_within limit (JObject [("error", JString message)])
  = Ok (error_text message).
Proof.
  intros Hplain. unfold stringify_within.
  rewrite (stringify_error_text message Hplain).
  replace (depth (JObject [("error", JString message)])) with 1 by done.
  destruct (Z.leb_spec 1 (Z.max 1 limit)) as [_|?]; [done|lia].
Qed.

(** The built-ins of an engine with the given bound on nesting. *)
Definition engine (limit : Z) : JSON_builtins :=
  {| JSON_parse := parse;
     JSON_stringify := stringify_within limit;
     JSON_stringify_error := stringify_within_error limit |}.

#[export] Instance builtins : JSON_builtins := engine 5000.

(** JSON text is written below with ['] for the double quote. *)
Definition js (text : string) : string :=
  string_of_list_ascii
    ((λ c, if Ascii.eqb c "'" then dquote else c)
       <$> list_ascii_of_string text).

End Reference.

(** ** Concrete surroundings on which the model is run *)

Module Scenario.
Import JS Handler Reference.

(** A fresh process: empty [Map], nothing done yet. *)
Definition fresh : world := World RateLimiter.rateLimit0 [].

(** A process in which the address has used up its thirty requests. *)
Definition exhausted : world :=
  World {[ "203.0.113.7" := replicate 30 0 ]} [].

Definition from_address : gmap string string :=
  {[ "x-forwarded-for" := "203.0.113.7" ]}.

(** An upstream that answers every call with the given status and body. *)
Definition answering (status : Z) (text : string)
  : string → Upstream.RequestInit → result Upstream.Response :=
  λ _ _, Ok (Upstream.mkResponse status (Some text)).

(** An upstream that cannot be reached. *)
Definition unreachable
  : string → Upstream.RequestInit → result Upstream.Response :=
  λ _ _, Throw (Rejection "fetch failed").

(** The surroundings of one invocation at a fixed instant. *)
Definition at_noon (key : option string)
    (upstream : string → Upstream.RequestInit → result Upstream.Response)
  : environment :=
  Env 1761480000000 key upstream.

(** The document [{contents: []}]. *)
Definition empty_contents : json := JObject [("contents", JArray [])].

Definition valid_body : Event.raw_body :=
  Event.BodyText (js "{'contents': []}").

(** The document [{contents: [[[...]]]}] with 6000 arrays inside one
    another, as the text of a body: some 12 kB, too deep for the reference
    engine to serialise. *)
Definition nested_body : Event.raw_body :=
  Event.BodyText
    (js "{'contents':"
     +:+ string_of_list_ascii (replicate (Z.to_nat 6000) "["%char)
     +:+ string_of_list_ascii (replicate (Z.to_nat 6000) "]"%char)
     +:+ "}").

(** What that body parses to. *)
Definition nested_document : json :=
  JObject [("contents", Z.iter 5999 (λ v, JArray [v]) (JArray []))].

Definition post (body : Event.raw_body) : Event.t :=
  Event.mk (Some from_address) (Some "POST") body.

End Scenario.

(** ** Invariants of the stored arrays *)

Module StoredArrays.
Import RateLimiter.

(** The array of an address ends with its latest admission and spans less
    than a window before it. *)
Definition spans_a_window (rl : store) (hist : list check) : Prop :=
  ∀ ip,
    match rl !! ip with
    | None => admissions ip hist = []
    | Some ts =>
        ∃ latest, last ts = Some latest
                  ∧ last (admissions ip hist) = Some latest
                  ∧ Forall (λ t, latest - t < RATE_LIMIT_WINDOW) ts
    end.

(** The admissions of an address that are less than a window before its
    latest one. *)
Definition recent_admissions (ip : string) (hist : list check) : list Z :=
  match last (admissions ip hist) with
  | Some latest => filter (recent latest) (admissions ip hist)
  | None => []
  end.

Definition stores_recent_admissions (t0 : Z) (rl : store) (hist : list check)
  : Prop :=
  ∀ ip, Forall (λ t, t <= t0) (admissions ip hist)
        ∧ default [] (rl !! ip) = recent_admissions ip hist.

End StoredArrays.

(** ** The function over the life of a process *)

Module Service.
Import JS RateLimiter Handler.

(** The lines written by [console.error] among some effects. *)
Definition logs (es : list effect) : list (list logged) :=
  omap (λ e, match e with
             | ConsoleError args => Some args
             | Fetch _ _ => None
             end) es.

(** The reply by which the rate limiter turns a request away: the only one
    that carries [Retry-After]. *)
Definition turned_away (r : result Reply.t) : bool :=
  match r with
  | Ok reply => bool_decide (("Retry-After", "60") ∈ Reply.headers reply)
  | Throw _ => false
  end.

(** The call of [checkRateLimit] that a request gives rise to. *)
Definition call_of (request : environment * Event.t) : option (string * Z) :=
  h ← Event.headers request.2; Some (clientIp_of h, Date_now request.1).

Section WithBuiltins.
Context `{JSON_builtins}.

(** Invocations one after the other in one process: each runs on the
    state the previous one left, in its own surroundings. *)
Fixpoint serve (requests : list (environment * Event.t)) (w : world)
  : list (result Reply.t) * world :=
  match requests with
  | [] => ([], w)
  | (env, event) :: rest =>
      let '(r, w') := handler env event w in
      let '(rs, w'') := serve rest w' in
      (r :: rs, w'')
  end.

(** The instants of the requests of [ip] that were not turned away. *)
Definition let_through (ip : string)
    (requests : list (environment * Event.t))
    (replies : list (result Reply.t)) : list Z :=
  omap (λ '(request, r),
          match call_of request with
          | Some (who, now) =>
              if bool_decide (who = ip) && negb (turned_away r)
              then Some now else None
          | None => None
          end)
       (zip requests replies).

End WithBuiltins.
End Service.

(** * Properties of the rate limiter *)

Module RateLimiterFacts.
Import RateLimiter.

Lemma checkRateLimit_unfold now ip (rl : store) :
  checkRateLimit now ip rl =
    let kept := filter (recent now) (default [] (rl !! ip)) in
    if bool_decide (MAX_REQUESTS_PER_WINDOW <= Z.of_nat (length kept))
    then (false, rl)
    else (true, <[ip := kept ++ [now]]> rl).
Proof.
  unfold checkRateLimit. cbv zeta.
  destruct (Z.geb_spec (Z.of_nat (length (filter (recent now) (default [] (rl !! ip)))))
              MAX_REQUESTS_PER_WINDOW) as [Hge|Hlt].
  - rewrite bool_decide_eq_true_2 by lia. reflexivity.
  - rewrite bool_decide_eq_false_2 by lia. reflexivity.
Qed.

Lemma checkRateLimit_false now ip (rl : store) :
  (checkRateLimit now ip rl).1 = false →
  (checkRateLimit now ip rl).2 = rl.
Proof.
  rewrite checkRateLimit_unfold. cbv zeta. case_bool_decide; simpl; [done|discriminate].
Qed.

(** *** Histories *)

Lemma admissions_app ip h1 h2 :
  admissions ip (h1 ++ h2) = admissions ip h1 ++ admissions ip h2.
Proof. unfold admissions. by rewrite filter_app, fmap_app. Qed.

Lemma admissions_rejected ip who now :
  admissions ip [Check who now false] = [].
Proof.
  unfold admissions. rewrite filter_cons_False; [done|]. simpl. intros [_ ?]. done.
Qed.

Lemma admissions_other ip who now ok :
  who ≠ ip → admissions ip [Check who now ok] = [].
Proof.
  intros Hne. unfold admissions. rewrite filter_cons_False; [done|].
  simpl. intros [? _]. done.
Qed.

Lemma admissions_admitted ip now :
  admissions ip [Check ip now true] = [now].
Proof. unfold admissions. rewrite filter_cons_True; [done|]. simpl. done. Qed.

Lemma in_window_app T l1 l2 :
  in_window T (l1 ++ l2) = in_window T l1 ++ in_window T l2.
Proof. unfold in_window. apply filter_app. Qed.

(** With every instant at most [now], the trailing window ending at [now]
    holds exactly the instants the source's test keeps. *)
Lemma in_window_recent now (ts : list Z) :
  Forall (λ t, t <= now) ts → in_window now ts = filter (recent now) ts.
Proof.
  induction 1 as [|t ts Ht _ IH]; [done|]. unfold in_window in *.
  rewrite !filter_cons, IH.
  destruct (decide (now - t < RATE_LIMIT_WINDOW)).
  - rewrite decide_True; [done|]. split; done.
  - rewrite decide_False; [done|]. intros [? _]. done.
Qed.

(** A later window, cut at [T], holds no more old instants than the window
    seen from [now]. *)
Lemma in_window_le_recent now T (ts : list Z) :
  now <= T → Forall (λ t, t <= now) ts →
  (length (in_window T ts) ≤ length (filter (recent now) ts))%nat.
Proof.
  intros HT. induction 1 as [|t ts Ht _ IH]; [done|]. unfold in_window in *.
  rewrite !filter_cons.
  destruct (decide (T - t < RATE_LIMIT_WINDOW ∧ t <= T)) as [[H1 H2]|].
  - rewrite decide_True by lia. simpl. lia.
  - destruct (decide (now - t < RATE_LIMIT_WINDOW)); simpl; lia.
Qed.

Lemma consistent_empty t0 : consistent t0 rateLimit0 [].
Proof.
  intros ip. unfold rateLimit0. rewrite lookup_empty. simpl.
  split; [done|]. split; [constructor|]. intros T. unfold MAX_REQUESTS_PER_WINDOW. simpl. lia.
Qed.

(** One call keeps the [Map] and the history consistent, provided the
    clock did not go back. *)
Lemma checkRateLimit_consistent t0 now ip (rl : store) hist :
  consistent t0 rl hist → t0 <= now →
  consistent now (checkRateLimit now ip rl).2
    (hist ++ [Check ip now (checkRateLimit now ip rl).1]).
Proof.
  intros Hc Hle who. destruct (Hc who) as (Hrec & Hold & Hwin).
  rewrite checkRateLimit_unfold. cbv zeta.
  rewrite admissions_app.
  case_bool_decide as Hfull; simpl.
  - (* rejected *)
    rewrite admissions_rejected, app_nil_r.
    split; [intros; apply Hrec; lia|]. split; [|done].
    eapply Forall_impl; [exact Hold|]. simpl. intros; lia.
  - (* admitted *)
    destruct (decide (ip = who)) as [->|Hne].
    + rewrite lookup_insert_eq, admissions_admitted. simpl.
      split; [|split].
      * intros now' Hnow'. rewrite !filter_app. f_equal.
        rewrite list_filter_filter_l by (intros; lia). apply Hrec. lia.
      * apply Forall_app. split; [|repeat constructor; lia].
        eapply Forall_impl; [exact Hold|]. simpl. intros; lia.
      * intros T. rewrite in_window_app, length_app.
        destruct (decide (now <= T)) as [HT|HT].
        -- assert (length (in_window T (admissions who hist))
                   ≤ length (filter (recent now) (admissions who hist)))%nat as Hlen.
           { apply in_window_le_recent; [done|].
             eapply Forall_impl; [exact Hold|]. simpl. intros; lia. }
           rewrite <- Hrec in Hlen by lia.
           assert (length (in_window T [now]) ≤ 1)%nat.
           { etrans; [apply length_filter|]. done. }
           lia.
        -- unfold in_window at 2. rewrite filter_cons_False by lia.
           rewrite filter_nil. simpl. specialize (Hwin T). lia.
    + rewrite lookup_insert_ne by done.
      rewrite admissions_other, app_nil_r by done.
      split; [intros; apply Hrec; lia|]. split; [|done].
      eapply Forall_impl; [exact Hold|]. simpl. intros; lia.
Qed.

Lemma run_cons ip now calls (rl : store) :
  run ((ip, now) :: calls) rl =
    ((run calls (checkRateLimit now ip rl).2).1,
     Check ip now (checkRateLimit now ip rl).1
       :: (run calls (checkRateLimit now ip rl).2).2).
Proof.
  simpl. destruct (checkRateLimit now ip rl) as [ok rl']. simpl.
  destruct (run calls rl') as [final answers]. done.
Qed.

(** The last instant of a run that starts no earlier than [t0]. *)
Lemma run_consistent calls : ∀ t0 (rl : store) hist,
  consistent t0 rl hist → Sorted Z.le (t0 :: calls.*2) →
  ∃ t1, consistent t1 (run calls rl).1 (hist ++ (run calls rl).2).
Proof.
  induction calls as [|[ip now] calls IH]; intros t0 rl hist Hc Hs.
  - exists t0. simpl. by rewrite app_nil_r.
  - rewrite run_cons. simpl.
    apply Sorted_inv in Hs as [Hs Hhd]. apply HdRel_inv in Hhd.
    destruct (IH now (checkRateLimit now ip rl).2
                 (hist ++ [Check ip now (checkRateLimit now ip rl).1])) as [t1 Ht1].
    + by eapply checkRateLimit_consistent.
    + exact Hs.
    + exists t1. by rewrite <- app_assoc in Ht1.
Qed.

(** Every answer of a run on a clock that never goes back is exact: the
    request is admitted exactly when fewer than the maximum of the earlier
    admissions lie in the window that ends at it. *)
Lemma run_exact calls : ∀ t0 (rl : store) hist,
  consistent t0 rl hist → Sorted Z.le (t0 :: calls.*2) →
  ∀ pre c post, (run calls rl).2 = pre ++ c :: post →
    admitted c = bool_decide
      (Z.of_nat (length (in_window (at_ c) (admissions (who c) (hist ++ pre))))
       < MAX_REQUESTS_PER_WINDOW).
Proof.
  induction calls as [|[ip now] calls IH]; intros t0 rl hist Hc Hs pre c post Heq.
  - simpl in Heq. by destruct pre.
  - rewrite run_cons in Heq. simpl in Heq, Hs.
    apply Sorted_inv in Hs as [Hs Hhd]. apply HdRel_inv in Hhd.
    destruct pre as [|c0 pre]; simpl in Heq.
    + injection Heq as <- _. simpl. rewrite app_nil_r.
      destruct (Hc ip) as (Hrec & Hold & _).
      rewrite in_window_recent
        by (eapply Forall_impl; [exact Hold|]; simpl; intros; lia).
      rewrite <- Hrec by done.
      rewrite checkRateLimit_unfold. cbv zeta.
      case_bool_decide; simpl; symmetry;
        [apply bool_decide_eq_false_2|apply bool_decide_eq_true_2]; lia.
    + injection Heq as <- Heq.
      replace (hist ++ Check ip now (checkRateLimit now ip rl).1 :: pre)
        with ((hist ++ [Check ip now (checkRateLimit now ip rl).1]) ++ pre)
        by (by rewrite <- app_assoc).
      eapply (IH now); [|exact Hs|exact Heq].
      by eapply checkRateLimit_consistent.
Qed.

(** *** Bound on what is stored *)

Lemma checkRateLimit_bounded now ip (rl : store) :
  bounded rl → bounded (checkRateLimit now ip rl).2.
Proof.
  intros Hb. rewrite checkRateLimit_unfold. cbv zeta.
  case_bool_decide as Hfull; simpl; [done|].
  apply map_Forall_insert_2; [|done].
  rewrite length_app. simpl. lia.
Qed.

Lemma run_bounded calls : ∀ rl : store, bounded rl → bounded (run calls rl).1.
Proof.
  induction calls as [|[ip now] calls IH]; intros rl Hb; [done|].
  rewrite run_cons. simpl. apply IH. by apply checkRateLimit_bounded.
Qed.

(** *** The claims about the rate limiter *)

(** C1 (as amended).  [checkRateLimit] reads the stored instants of the
    address (none if unseen), keeps those with [now - entry < 60000],
    answers [false] when at least 30 are kept, and otherwise appends [now],
    stores the result and answers [true].  Consequently, on a clock that
    never goes back and starting from the empty [Map], no trailing interval
    of 60000 ms holds more than 30 admitted instants of one address, and
    every answer is exact: a request is admitted exactly when fewer than 30
    earlier admissions of its address lie in the window ending at it. *)
Theorem sliding_window_on_monotone_clock :
  (∀ now ip (rl : store),
     let kept := filter (λ entry, now - entry < 60000) (default [] (rl !! ip)) in
     checkRateLimit now ip rl =
       if bool_decide (30 <= Z.of_nat (length kept))
       then (false, rl)
       else (true, <[ip := kept ++ [now]]> rl))
  ∧ (∀ calls, nondecreasing calls →
       (∀ ip T,
          Z.of_nat (length (in_window T (admissions ip (run calls rateLimit0).2)))
          <= 30)
       ∧ (∀ pre c post, (run calls rateLimit0).2 = pre ++ c :: post →
            admitted c = bool_decide
              (Z.of_nat (length (in_window (at_ c) (admissions (who c) pre)))
               < 30))).
Proof.
  split; [intros; apply checkRateLimit_unfold|].
  intros calls Hs.
  assert (∃ t0, Sorted Z.le (t0 :: calls.*2)) as [t0 Hs0].
  { unfold nondecreasing in Hs. destruct calls as [|[ip now] calls].
    - exists 0. repeat constructor.
    - exists now. simpl in *. constructor; [done|]. constructor. lia. }
  split.
  - intros ip T.
    destruct (run_consistent calls t0 rateLimit0 [] (consistent_empty t0) Hs0)
      as [t1 Ht1].
    destruct (Ht1 ip) as (_ & _ & Hwin). apply Hwin.
  - intros pre c post Heq.
    apply (run_exact calls t0 rateLimit0 [] (consistent_empty t0) Hs0 pre c post Heq).
Qed.

Lemma sliding_window_on_monotone_clock_witness :
  let calls := [("203.0.113.7", 0); ("203.0.113.7", 1000); ("198.51.100.2", 1000)] in
  nondecreasing calls
  ∧ Z.of_nat (length (in_window 1000
                        (admissions "203.0.113.7" (run calls rateLimit0).2)))
    <= 30.
Proof.
  assert (nondecreasing
            [("203.0.113.7", 0); ("203.0.113.7", 1000); ("198.51.100.2", 1000)])
    as Hs.
  { unfold nondecreasing. simpl.
    repeat first [apply Sorted_cons | apply Sorted_nil
                 | apply HdRel_cons | apply HdRel_nil]; lia. }
  split; [exact Hs|].
  apply (proj1 (proj2 sliding_window_on_monotone_clock _ Hs)).
Defined.

(** C1 as stated fails when the clock steps back: thirty requests at
    instant 0, one at 60000 (which prunes the list), and one more at
    instant 0 are all admitted, so 31 admitted requests carry the
    instant 0. *)
Lemma window_bound_fails_when_clock_steps_back :
  let calls := replicate 30 ("203.0.113.7", 0)
                 ++ [("203.0.113.7", 60000); ("203.0.113.7", 0)] in
  admitted <$> (run calls rateLimit0).2 = replicate 32 true
  ∧ ¬ (∀ ip T,
         Z.of_nat (length (in_window T (admissions ip (run calls rateLimit0).2)))
         <= 30).
Proof.
  split.
  - vm_compute. reflexivity.
  - intros Hall. specialize (Hall "203.0.113.7" 0).
    vm_compute in Hall. apply Hall. reflexivity.
Qed.

(** C8.  When [checkRateLimit] answers [false], the whole [Map] is as it
    was before the call: nothing is recorded for the rejected request and
    the pruned array is not written back, for this address or any
    other. *)
Theorem rejection_leaves_map_untouched now ip (rl : store) :
  (checkRateLimit now ip rl).1 = false →
  (checkRateLimit now ip rl).2 = rl.
Proof. apply checkRateLimit_false. Qed.

Lemma rejection_leaves_map_untouched_witness :
  let rl : store :=
    {[ "203.0.113.7" := 0 :: replicate 30 50000; "198.51.100.2" := [0] ]} in
  (checkRateLimit 70000 "203.0.113.7" rl).1 = false
  ∧ (checkRateLimit 70000 "203.0.113.7" rl).2 = rl.
Proof.
  split; [vm_compute; reflexivity|].
  apply rejection_leaves_map_untouched. vm_compute. reflexivity.
Defined.

(** C9.  Starting from the empty [Map], after any sequence of calls (any
    addresses, any instants, in particular non-decreasing ones) every
    stored array has at most 30 entries; indeed a call either leaves the
    [Map] alone or stores a filtered array of fewer than 30 entries with
    one entry appended. *)
Theorem stored_arrays_bounded :
  (∀ calls,
     map_Forall (λ _ ts, Z.of_nat (length ts) <= MAX_REQUESTS_PER_WINDOW)
                (run calls rateLimit0).1)
  ∧ (∀ now ip (rl : store),
       (checkRateLimit now ip rl).2 = rl
       ∨ ∃ kept, Z.of_nat (length kept) < MAX_REQUESTS_PER_WINDOW
                 ∧ (checkRateLimit now ip rl).2 = <[ip := kept ++ [now]]> rl).
Proof.
  split.
  - intros calls. apply (run_bounded calls rateLimit0). apply map_Forall_empty.
  - intros now ip rl. rewrite checkRateLimit_unfold. cbv zeta.
    case_bool_decide; simpl; [by left|right].
    eexists. split; [|reflexivity]. lia.
Qed.

(** The scenario of the specification: thirty calls one second apart are
    admitted, the next one at 30 s is rejected, one at 61 s is admitted
    again, and another address is not affected. *)
Example thirty_per_minute :
  let calls := ((λ k, ("203.0.113.7", 1000 * Z.of_nat k)) <$> seq 0 30)
                 ++ [("203.0.113.7", 30000); ("198.51.100.2", 30000);
                     ("203.0.113.7", 61000)] in
  admitted <$> (run calls rateLimit0).2
  = replicate 30 true ++ [false; true; true].
Proof. vm_compute. reflexivity. Qed.

End RateLimiterFacts.

(** * The reference built-ins on examples *)

Module ReferenceFacts.
Import JS Reference.

Example parses_and_prints_a_document :
  stringify <$> parse (js " { 'b' : [1, 2.50, -0, 1e3], '1' : null, 'b' : 'x' } ")
  = Some (js "{'1':null,'b':'x'}").
Proof. vm_compute. reflexivity. Qed.

Example prints_numbers_as_Number_toString :
  (λ text, stringify <$> parse text)
    <$> ["0.1"; "1e21"; "100000000000000000000"; "1e-7"; "0.000001";
         "9007199254740993"; "5e-324"; "-1.25"; "1e999"]
  = Some <$> ["0.1"; "1e+21"; "100000000000000000000"; "1e-7"; "0.000001";
              "9007199254740992"; "5e-324"; "-1.25"; "null"].
Proof. vm_compute. reflexivity. Qed.

Example rejects_what_is_not_JSON :
  parse <$> ["{not json"; "undefined"; ""; "01"; "1."; "[1,]"; js "{'a':1,}";
             js "'open"; "nul"; "null x"]
  = replicate 10 None.
Proof. vm_compute. reflexivity. Qed.

Example escapes_and_counts_code_units :
  (λ v, (stringify v, String_length (stringify v)))
    <$> parse (js "'a\né😀\ud800'")
  = Some (js "'a\né😀\ud800'", 14).
Proof. vm_compute. reflexivity. Qed.

(** A high surrogate written as an escape and a low one written raw
    (bytes [ED B8 80]) make one character. *)
Example pairs_surrogates_however_written :
  stringify
    <$> parse (js "'\ud83d"
               +:+ String (char_of 237) (String (char_of 184) (String (char_of 128) ""))
               +:+ js "'")
  = Some (js "'😀'").
Proof. vm_compute. reflexivity. Qed.

Example serialiser_gives_up_on_deep_nesting :
  stringify_within 3 <$> parse "[[[]]]" = Some (Ok "[[[]]]")
  ∧ stringify_within 3 <$> parse "[[[[]]]]"
    = Some (Throw (RangeError "Maximum call stack size exceeded")).
Proof. vm_compute. split; reflexivity. Qed.

End ReferenceFacts.

(** * Properties of the validator and of the handler *)

Module HandlerFacts.
Import JS RateLimiter Validator Handler.

Section WithBuiltins.
Context `{JSON_builtins} (env : environment).

(** *** The validator *)

Lemma validateRequest_cases (v : json) :
  validateRequest v
  = match v with
    | JObject _ =>
        if contents_is_array v
        then
          match JSON_stringify v with
          | Ok serialized =>
              if String_length serialized >? 100000
              then Throw (Error "Request payload too large")
              else Ok true
          | Throw e => Throw e
          end
        else Throw (Error "Invalid contents format")
    | JArray _ => Throw (Error "Invalid contents format")
    | _ => Throw (Error "Invalid request body")
    end.
Proof.
  unfold validateRequest.
  destruct v as [|b|x|s|elements|properties]; simpl; try done.
  - by destruct b.
  - by destruct x.
  - by destruct (String.eqb s "").
  - destruct (assoc "contents" properties) as [[|b|x|s|elements|fields]|];
      simpl; try done.
    + by destruct b.
    + by destruct x.
    + by destruct (String.eqb s "").
Qed.

Lemma validateRequest_accepts (v : json) (serialized : string) :
  is_plain_object v = true → contents_is_array v = true →
  JSON_stringify v = Ok serialized →
  String_length serialized <= MAX_PAYLOAD_SIZE →
  validateRequest v = Ok true.
Proof.
  intros Hobj Harr Hs Hsize. rewrite validateRequest_cases.
  destruct v; try discriminate. rewrite Harr, Hs.
  destruct (Z.gtb_spec (String_length serialized) 100000) as [Hgt|_]; [|done].
  unfold MAX_PAYLOAD_SIZE in Hsize. lia.
Qed.

Lemma validateRequest_passed (v : json) (r : bool) :
  validateRequest v = Ok r →
  r = true ∧ is_plain_object v = true ∧ contents_is_array v = true
  ∧ ∃ serialized, JSON_stringify v = Ok serialized
                  ∧ String_length serialized <= MAX_PAYLOAD_SIZE.
Proof.
  rewrite validateRequest_cases. destruct v; try discriminate.
  destruct (contents_is_array _); [|discriminate].
  destruct (JSON_stringify _) as [serialized|e]; [|discriminate].
  destruct (Z.gtb_spec (String_length serialized) 100000) as [|Hle];
    [discriminate|].
  intros [= <-]. repeat split. exists serialized. by split.
Qed.

Lemma validateRequest_throws (v : json) :
  (∃ e, validateRequest v = Throw e) ↔
  is_plain_object v = false ∨ contents_is_array v = false
  ∨ (∃ serialized, JSON_stringify v = Ok serialized
                   ∧ String_length serialized > 100000)
  ∨ ∃ e, JSON_stringify v = Throw e.
Proof.
  rewrite validateRequest_cases. split.
  - intros [e He]. destruct v; try (by left).
    destruct (contents_is_array _); [|by right; left].
    destruct (JSON_stringify _) as [serialized|e']; [|by eauto 6].
    destruct (Z.gtb_spec (String_length serialized) 100000) as [Hgt|];
      [|discriminate].
    right. right. left. exists serialized. split; [done|lia].
  - destruct v; try (intros _; eauto; fail).
    intros [?|[Harr|[(serialized & Hs & Hlen)|[e He]]]];
      [discriminate| | |].
    + rewrite Harr. eauto.
    + destruct (contents_is_array _); [|eauto]. rewrite Hs.
      destruct (Z.gtb_spec (String_length serialized) 100000);
        [eauto|lia].
    + destruct (contents_is_array _); [|eauto]. rewrite He. eauto.
Qed.

Lemma parse_and_validate_ok (body : Event.raw_body) (requestBody : json) :
  parse_and_validate body = Ok requestBody ↔
  parse_body body = Ok requestBody ∧ validateRequest requestBody = Ok true.
Proof.
  unfold parse_and_validate. split.
  - destruct (parse_body body) as [v|e]; simpl; [|discriminate].
    destruct (validateRequest v) as [r|e] eqn:Hv; simpl; [|discriminate].
    intros [= <-]. split; [done|].
    by destruct (validateRequest_passed v r Hv) as [-> _].
  - intros [-> Hv]. simpl. by rewrite Hv.
Qed.

Lemma parse_and_validate_throws (body : Event.raw_body) :
  (∃ e, parse_and_validate body = Throw e) ↔
  invalid_request body ∨ not_serializable body.
Proof.
  unfold parse_and_validate, invalid_request, not_serializable.
  destruct (parse_body body) as [v|e0]; simpl.
  - transitivity (∃ e, validateRequest v = Throw e).
    + split; intros [e He]; exists e.
      * destruct (validateRequest v); simpl in *; [discriminate|].
        by injection He as ->.
      * by rewrite He.
    + rewrite validateRequest_throws. split.
      * intros [?|[?|[?|[e He]]]].
        -- left. by left.
        -- left. right. by left.
        -- left. right. by right.
        -- right. by exists v, e.
      * intros [[?|[?|?]]|(v' & e & [= <-] & He)].
        -- by left.
        -- right. by left.
        -- right. right. by left.
        -- right. right. right. by exists e.
  - split; [by left|intros _; by exists e0].
Qed.

(** *** The handler, stage by stage *)

Lemma error_body_plain (message : string) (w : world) :
  plain message = true →
  error_body message w = (Ok (error_text message), w).
Proof.
  intros Hplain. unfold error_body, lift.
  by rewrite (JSON_stringify_error message Hplain).
Qed.

Lemma handler_unfold h m b (w : world) :
  handler env (Event.mk (Some h) m b) w =
    if negb (admits env h w)
    then (Ok (Reply.mk 429
                [("Content-Type", "application/json"); ("Retry-After", "60")]
                (error_text msg_rate_limited)),
          checked env h w)
    else if negb (bool_decide (m = Some "POST"))
    then (Ok (Reply.mk 405
                [("Content-Type", "application/json"); ("Allow", "POST")]
                (error_text msg_method_not_allowed)),
          checked env h w)
    else
      match parse_and_validate b with
      | Throw _ =>
          (Ok (Reply.mk 400 [("Content-Type", "application/json")]
                 (error_text msg_invalid_request)),
           checked env h w)
      | Ok requestBody => forward env requestBody (checked env h w)
      end.
Proof.
  unfold handler, admits, checked, call_checkRateLimit.
  cbn [Event.headers Event.httpMethod Event.body].
  unfold mbind, M_bind, mret, M_ret.
  destruct (checkRateLimit (Date_now env) (clientIp_of h) (rateLimit w))
    as [allowed rl']. cbn [fst snd].
  destruct allowed; cbn [negb];
    [|by rewrite error_body_plain by reflexivity].
  destruct (bool_decide (m = Some "POST")); cbn [negb];
    [|by rewrite error_body_plain by reflexivity].
  destruct (parse_and_validate b); [done|].
  by rewrite error_body_plain by reflexivity.
Qed.

Lemma forward_unfold (requestBody : json) (w : world) :
  forward env requestBody w =
    let url := GOOGLE_API_URL (default "" (GEMINI_API_KEY env)) in
    let unexpected e sent :=
      (Ok (Reply.mk 500 [("Content-Type", "application/json")]
             (error_text msg_server_error)),
       World (rateLimit w)
         (sent ++ [ConsoleError [LogText "Unexpected error:"; LogError e]])) in
    if negb (truthy (GEMINI_API_KEY env))
    then (Ok (Reply.mk 500 [("Content-Type", "application/json")]
                (error_text msg_server_config)),
          World (rateLimit w)
            (effects w
             ++ [ConsoleError [LogText "GEMINI_API_KEY is not configured"]]))
    else
      match JSON_stringify requestBody with
      | Throw e => unexpected e (effects w)
      | Ok payload =>
          let init := Upstream.mkInit "POST"
                        [("Content-Type", "application/json")] payload in
          let sent := effects w ++ [Fetch url init] in
          match upstream env url init with
          | Throw e => unexpected e sent
          | Ok response =>
              if negb (Upstream.ok response)
              then
                (Ok (Reply.mk
                       (if Upstream.status response =? 429 then 429 else 500)
                       [("Content-Type", "application/json")]
                       (error_text
                          (if Upstream.status response =? 429
                           then msg_upstream_rate_limited
                           else msg_upstream_failed))),
                 World (rateLimit w)
                   (sent ++ [ConsoleError
                               [LogText "Gemini API Error:";
                                LogNumber (Upstream.status response);
                                LogValue match json_of response with
                                         | Ok d => d
                                         | Throw _ => JObject []
                                         end]]))
              else
                match json_of response with
                | Ok data =>
                    match JSON_stringify data with
                    | Ok body =>
                        (Ok (Reply.mk 200
                               [("Content-Type", "application/json");
                                ("Cache-Control",
                                 "no-store, no-cache, must-revalidate");
                                ("X-Content-Type-Options", "nosniff")]
                               body),
                         World (rateLimit w) sent)
                    | Throw e => unexpected e sent
                    end
                | Throw e => unexpected e sent
                end
          end
      end.
Proof.
  unfold forward. cbv zeta.
  destruct (truthy (GEMINI_API_KEY env)); cbn [negb].
  - unfold try_catch, fetch, mbind, M_bind, mret, M_ret, emit, lift,
      console_error, emit. cbn [rateLimit effects].
    destruct (JSON_stringify requestBody) as [payload|e];
      [|by rewrite error_body_plain by reflexivity].
    destruct (upstream env _ _) as [response|e];
      [|by rewrite error_body_plain by reflexivity].
    destruct (Upstream.ok response); cbn [negb].
    + destruct (json_of response) as [data|e];
        [|by rewrite error_body_plain by reflexivity].
      destruct (JSON_stringify data) as [body|e]; [done|].
      by rewrite error_body_plain by reflexivity.
    + rewrite error_body_plain; [done|].
      by destruct (Upstream.status response =? 429).
  - unfold mbind, M_bind, mret, M_ret, console_error, emit.
    by rewrite error_body_plain by reflexivity.
Qed.

Lemma forward_replies (requestBody : json) (w : world) :
  ∃ reply es,
    forward env requestBody w
    = (Ok reply, World (rateLimit w) (effects w ++ es)).
Proof.
  rewrite forward_unfold. cbv zeta.
  destruct (truthy (GEMINI_API_KEY env)); simpl; [|by eauto].
  destruct (JSON_stringify requestBody) as [payload|e]; [|by eauto].
  destruct (upstream env _ _) as [response|e]; simpl.
  - destruct (Upstream.ok response); simpl.
    + destruct (json_of response) as [data|e]; [|rewrite <- app_assoc; eauto].
      destruct (JSON_stringify data); rewrite <- ?app_assoc; eauto.
    + rewrite <- app_assoc. eauto.
  - rewrite <- app_assoc. eauto.
Qed.

Lemma handler_replies h m b (w : world) :
  ∃ reply es,
    handler env (Event.mk (Some h) m b) w
    = (Ok reply, World (rateLimit (checked env h w)) (effects w ++ es)).
Proof.
  rewrite handler_unfold.
  destruct (admits env h w); simpl;
    [|eexists; exists []; by rewrite app_nil_r].
  destruct (bool_decide (m = Some "POST")); simpl;
    [|eexists; exists []; by rewrite app_nil_r].
  destruct (parse_and_validate b) as [requestBody|e];
    [|eexists; exists []; by rewrite app_nil_r].
  destruct (forward_replies requestBody (checked env h w))
    as (reply & es & ->).
  by exists reply, es.
Qed.

Lemma checked_rejected h (w : world) :
  admits env h w = false → checked env h w = w.
Proof.
  unfold admits, checked. intros Hrej.
  rewrite RateLimiterFacts.checkRateLimit_false by done. by destruct w.
Qed.

Lemma forward_status (requestBody : json) (w w' : world) reply :
  forward env requestBody w = (Ok reply, w') →
  Reply.statusCode reply = 200 ∨ Reply.statusCode reply = 429
  ∨ Reply.statusCode reply = 500.
Proof.
  rewrite forward_unfold. cbv zeta.
  destruct (truthy (GEMINI_API_KEY env)); simpl;
    [|intros [= <- _]; simpl; tauto].
  destruct (JSON_stringify requestBody) as [payload|e];
    [|intros [= <- _]; simpl; tauto].
  destruct (upstream env _ _) as [response|e]; simpl;
    [|intros [= <- _]; simpl; tauto].
  destruct (Upstream.ok response); simpl.
  - destruct (json_of response) as [data|e];
      [|intros [= <- _]; simpl; tauto].
    destruct (JSON_stringify data); intros [= <- _]; simpl; tauto.
  - intros [= <- _]; simpl.
    destruct (Upstream.status response =? 429); tauto.
Qed.

(** *** The claims about the handler *)


(** C3.  The checks run in the order rate limit, method, parsing and
    validation, credential, upstream call, and the first one that fails
    decides the reply.  A rejected address gets 429 with [Retry-After: 60]
    whatever the method, the body, the credential and the upstream are,
    and the state is untouched; an admitted request that is not a POST
    gets 405 with [Allow: POST] whatever the body is; an admitted POST
    whose parsing or validation throws gets 400 whatever the credential
    is; and an admitted POST that passes validation, without credential,
    gets 500 without any call to the upstream. *)
Theorem checks_in_fixed_order h m b (w : world) :
  (admits env h w = false →
     handler env (Event.mk (Some h) m b) w
     = (Ok (Reply.mk 429
              [("Content-Type", "application/json"); ("Retry-After", "60")]
              (error_text
                 "リクエストが多すぎます。しばらくしてから再度お試しください。")),
        w))
  ∧ (admits env h w = true → m ≠ Some "POST" →
     handler env (Event.mk (Some h) m b) w
     = (Ok (Reply.mk 405
              [("Content-Type", "application/json"); ("Allow", "POST")]
              (error_text "Method not allowed")),
        checked env h w))
  ∧ (∀ e, admits env h w = true → parse_and_validate b = Throw e →
     handler env (Event.mk (Some h) (Some "POST") b) w
     = (Ok (Reply.mk 400 [("Content-Type", "application/json")]
              (error_text "無効なリクエストです。")),
        checked env h w))
  ∧ (∀ requestBody,
     admits env h w = true → parse_and_validate b = Ok requestBody →
     truthy (GEMINI_API_KEY env) = false →
     (handler env (Event.mk (Some h) (Some "POST") b) w).1
     = Ok (Reply.mk 500 [("Content-Type", "application/json")]
             (error_text
                "サーバー設定エラー。管理者に連絡してください。"))
     ∧ fetches (effects (handler env (Event.mk (Some h) (Some "POST") b) w).2)
       = fetches (effects w)).
Proof.
  split; [|split; [|split]].
  - intros Hrej. rewrite handler_unfold, Hrej. simpl.
    by rewrite checked_rejected.
  - intros Hadm Hm. rewrite handler_unfold, Hadm. simpl.
    by rewrite bool_decide_eq_false_2.
  - intros e Hadm Hbad. rewrite handler_unfold, Hadm, Hbad. done.
  - intros requestBody Hadm Hok Hkey.
    rewrite handler_unfold, Hadm, Hok. simpl.
    rewrite forward_unfold. cbv zeta. rewrite Hkey. simpl.
    split; [done|]. unfold fetches. rewrite omap_app. simpl.
    by rewrite app_nil_r.
Qed.

(** C4 (as amended).  For an admitted POST the handler answers 400 with
    the invalid-request message exactly when the raw body does not parse
    as JSON, or the parsed body is not an object (null, a primitive, an
    array), or its [contents] is absent or not an array, or its
    re-serialised length exceeds 100,000, or it cannot be re-serialised
    at all; a body that does not parse gets the very same reply as a
    shape or size violation.  The object [{contents: []}] passes
    validation when its serialisation has at most 100,000 characters (it
    has 15). *)
Theorem bad_request_iff_invalid h b (w : world) :
  admits env h w = true →
  (invalid_request b ∨ not_serializable b →
     handler env (Event.mk (Some h) (Some "POST") b) w
     = (Ok (Reply.mk 400 [("Content-Type", "application/json")]
              (error_text "無効なリクエストです。")),
        checked env h w))
  ∧ ((∃ reply, (handler env (Event.mk (Some h) (Some "POST") b) w).1 = Ok reply
               ∧ Reply.statusCode reply = 400)
     ↔ invalid_request b ∨ not_serializable b)
  ∧ (∀ serialized,
       JSON_stringify (JObject [("contents", JArray [])]) = Ok serialized →
       String_length serialized <= 100000 →
       validateRequest (JObject [("contents", JArray [])]) = Ok true).
Proof.
  intros Hadm.
  assert (invalid_request b ∨ not_serializable b →
          handler env (Event.mk (Some h) (Some "POST") b) w
          = (Ok (Reply.mk 400 [("Content-Type", "application/json")]
                   (error_text "無効なリクエストです。")),
             checked env h w)) as Hbad.
  { intros Hbad. rewrite handler_unfold, Hadm. simpl.
    apply parse_and_validate_throws in Hbad as [e ->]. done. }
  split; [exact Hbad|]. split.
  - split.
    + intros (reply & Hreply & Hstatus).
      rewrite handler_unfold, Hadm in Hreply. simpl in Hreply.
      destruct (parse_and_validate b) as [requestBody|e] eqn:Hpv.
      * destruct (forward env requestBody (checked env h w)) as [r w'] eqn:Hf.
        simpl in Hreply. subst r.
        apply forward_status in Hf. lia.
      * apply parse_and_validate_throws. eauto.
    + intros Hinv. rewrite (Hbad Hinv). simpl. eauto.
  - intros serialized Hs Hsize.
    by apply (validateRequest_accepts _ serialized).
Qed.

(** C10.  A request that passes the rate-limit check is recorded before
    its method is looked at: whatever the method and the body, the stored
    array of its address becomes the pruned array with the instant of the
    request appended, so a request that is answered 405 uses up one unit
    of the quota just as a POST does. *)
Theorem admission_recorded_before_method_check h m b (w : world) :
  admits env h w = true →
  rateLimit (handler env (Event.mk (Some h) m b) w).2
  = <[clientIp_of h :=
        filter (λ time, Date_now env - time < RATE_LIMIT_WINDOW)
               (default [] (rateLimit w !! clientIp_of h))
        ++ [Date_now env]]> (rateLimit w)
  ∧ (m ≠ Some "POST" →
     (handler env (Event.mk (Some h) m b) w).1
     = Ok (Reply.mk 405
             [("Content-Type", "application/json"); ("Allow", "POST")]
             (error_text msg_method_not_allowed))).
Proof.
  intros Hadm. split.
  - destruct (handler_replies h m b w) as (reply & es & ->). simpl.
    unfold admits in Hadm. revert Hadm.
    rewrite RateLimiterFacts.checkRateLimit_unfold. cbv zeta.
    case_bool_decide; simpl; [discriminate|done].
  - intros Hm. rewrite handler_unfold, Hadm. simpl.
    by rewrite bool_decide_eq_false_2.
Qed.

Section Forwarded.
(** An admitted POST whose body parses to [requestBody] and passes
    validation. *)
Variables (h : gmap string string) (b : Event.raw_body) (w : world).
Variable requestBody : json.
Hypothesis admitted : admits env h w = true.
Hypothesis parsed : parse_body b = Ok requestBody.
Hypothesis valid : validateRequest requestBody = Ok true.

Lemma handler_forward :
  handler env (Event.mk (Some h) (Some "POST") b) w
  = forward env requestBody (checked env h w).
Proof.
  rewrite handler_unfold, admitted. simpl.
  by rewrite (proj2 (parse_and_validate_ok b requestBody) (conj parsed valid)).
Qed.

Lemma payload_exists :
  ∃ payload, JSON_stringify requestBody = Ok payload.
Proof.
  destruct (validateRequest_passed _ _ valid)
    as (_ & _ & _ & payload & Hpayload & _).
  by exists payload.
Qed.

(** C7.  When the credential is absent (undefined, or the empty
    string, which is as falsy), the reply is 500 with the
    server-misconfiguration message, and the only effect is the log
    line: no call to the upstream is made. *)
Theorem missing_credential_is_500_without_call :
  truthy (GEMINI_API_KEY env) = false →
  handler env (Event.mk (Some h) (Some "POST") b) w
  = (Ok (Reply.mk 500 [("Content-Type", "application/json")]
           (error_text
              "サーバー設定エラー。管理者に連絡してください。")),
     World (rateLimit (checked env h w))
       (effects w
        ++ [ConsoleError [LogText "GEMINI_API_KEY is not configured"]]))
  ∧ fetches (effects (handler env (Event.mk (Some h) (Some "POST") b) w).2)
    = fetches (effects w).
Proof.
  intros Hkey. rewrite handler_forward, forward_unfold. cbv zeta.
  rewrite Hkey. simpl. split; [done|].
  unfold fetches. rewrite omap_app. simpl. by rewrite app_nil_r.
Qed.

(** C5.  When the upstream answers with a status outside 200-299, the
    reply is 429 with the upstream-rate-limit message if that status is
    exactly 429 and 500 with the upstream-call-failed message for any
    other status; the error body is parsed as JSON, an empty object
    standing in when that fails, and goes with the status to the log
    only: the reply holds neither. *)
Theorem upstream_failure_translated
    (payload : string) (response : Upstream.Response) :
  truthy (GEMINI_API_KEY env) = true →
  JSON_stringify requestBody = Ok payload →
  upstream env (GOOGLE_API_URL (default "" (GEMINI_API_KEY env)))
    (Upstream.mkInit "POST" [("Content-Type", "application/json")]
       payload) = Ok response →
  Upstream.ok response = false →
  handler env (Event.mk (Some h) (Some "POST") b) w
  = (Ok (if decide (Upstream.status response = 429)
         then Reply.mk 429 [("Content-Type", "application/json")]
                (error_text
                   "APIのレート制限に達しました。しばらくしてから再度お試しください。")
         else Reply.mk 500 [("Content-Type", "application/json")]
                (error_text "Gemini APIの呼び出しに失敗しました。")),
     World (rateLimit (checked env h w))
       (effects w
        ++ [Fetch (GOOGLE_API_URL (default "" (GEMINI_API_KEY env)))
              (Upstream.mkInit "POST"
                 [("Content-Type", "application/json")] payload);
            ConsoleError
              [LogText "Gemini API Error:";
               LogNumber (Upstream.status response);
               LogValue match json_of response with
                        | Ok errorData => errorData
                        | Throw _ => JObject []
                        end]])).
Proof.
  intros Hkey Hpayload Hanswer Hfailed.
  rewrite handler_forward, forward_unfold. cbv zeta.
  rewrite Hkey, Hpayload. simpl. rewrite Hanswer, Hfailed. simpl.
  rewrite <- app_assoc. simpl.
  destruct (Z.eqb_spec (Upstream.status response) 429) as [Heq|Hne].
  - by rewrite decide_True.
  - by rewrite decide_False.
Qed.

(** C6 (as amended).  With a credential, exactly one call goes out: a
    POST with [Content-Type: application/json] whose body is the
    serialisation of the parsed inbound document as it is.  When the
    upstream answers with a status in 200-299 and a body that parses to
    a document [data] which can be serialised again, the reply is 200,
    its body that serialisation of [data] as it is, with the headers
    [Content-Type: application/json], [Cache-Control: no-store,
    no-cache, must-revalidate] and [X-Content-Type-Options: nosniff]. *)
Theorem payload_and_answer_relayed_verbatim :
  truthy (GEMINI_API_KEY env) = true →
  ∃ payload,
    JSON_stringify requestBody = Ok payload
    ∧ fetches (effects (handler env (Event.mk (Some h) (Some "POST") b) w).2)
      = fetches (effects w)
        ++ [(GOOGLE_API_URL (default "" (GEMINI_API_KEY env)),
             Upstream.mkInit "POST" [("Content-Type", "application/json")]
               payload)]
    ∧ ∀ response data body,
        upstream env (GOOGLE_API_URL (default "" (GEMINI_API_KEY env)))
          (Upstream.mkInit "POST" [("Content-Type", "application/json")]
             payload) = Ok response →
        Upstream.ok response = true →
        json_of response = Ok data →
        JSON_stringify data = Ok body →
        (handler env (Event.mk (Some h) (Some "POST") b) w).1
        = Ok (Reply.mk 200
                [("Content-Type", "application/json");
                 ("Cache-Control", "no-store, no-cache, must-revalidate");
                 ("X-Content-Type-Options", "nosniff")]
                body).
Proof.
  intros Hkey. destruct payload_exists as [payload Hpayload].
  exists payload. split; [done|].
  rewrite handler_forward, forward_unfold. cbv zeta.
  rewrite Hkey, Hpayload. simpl. split.
  - unfold fetches.
    destruct (upstream env _ _) as [response|e]; simpl.
    + destruct (Upstream.ok response); simpl.
      * destruct (json_of response) as [data|e]; simpl.
        -- destruct (JSON_stringify data); simpl;
             rewrite ?omap_app; simpl; by rewrite ?app_nil_r.
        -- rewrite !omap_app. simpl. by rewrite app_nil_r.
      * rewrite !omap_app. simpl. by rewrite app_nil_r.
    + rewrite !omap_app. simpl. by rewrite app_nil_r.
  - intros response data body -> Hsucc Hdata Hbody. simpl.
    by rewrite Hsucc, Hdata, Hbody.
Qed.

End Forwarded.

End WithBuiltins.

(** *** The claims on concrete requests *)

Import Reference Scenario.



Lemma checks_in_fixed_order_witness :
  let env := Env 1000 (Some "secret") unreachable in
  admits env from_address exhausted = false
  ∧ handler env (Event.mk (Some from_address) (Some "GET") Event.BodyNull)
            exhausted
    = (Ok (Reply.mk 429
             [("Content-Type", "application/json"); ("Retry-After", "60")]
             (js "{'error':'リクエストが多すぎます。しばらくしてから再度お試しください。'}")),
       exhausted).
Proof.
  split; [vm_compute; reflexivity|].
  rewrite (proj1 (checks_in_fixed_order (Env 1000 (Some "secret") unreachable)
                    from_address (Some "GET") Event.BodyNull exhausted))
    by (vm_compute; reflexivity).
  vm_compute. reflexivity.
Defined.

Lemma nested_body_parses :
  parse_body nested_body = Ok nested_document.
Proof. vm_compute. reflexivity. Qed.

(** C4 as stated fails for a body that parses to a well-shaped document
    nested so deeply that [JSON.stringify] throws at line 29: none of the
    four conditions holds (there is no serialisation to measure), and yet
    the [catch] of lines 66-74 answers 400. *)
Lemma deeply_nested_body_gets_400 :
  let env := at_noon (Some "secret") (answering 200 "{}") in
  admits env from_address fresh = true
  ∧ ¬ invalid_request nested_body
  ∧ (handler env (post nested_body) fresh).1
    = Ok (Reply.mk 400 [("Content-Type", "application/json")]
            (js "{'error':'無効なリクエストです。'}")).
Proof.
  split; [vm_compute; reflexivity|]. split.
  - unfold invalid_request. rewrite nested_body_parses.
    intros [Hobj|[Harr|(serialized & Hs & _)]].
    + vm_compute in Hobj. discriminate.
    + vm_compute in Harr. discriminate.
    + vm_compute in Hs. discriminate.
  - vm_compute. reflexivity.
Qed.

Lemma bad_request_iff_invalid_witness :
  let env := at_noon (Some "secret") unreachable in
  let body := Event.BodyText "{not json" in
  admits env from_address fresh = true
  ∧ (invalid_request body ∨ not_serializable body)
  ∧ handler env (post body) fresh
    = (Ok (Reply.mk 400 [("Content-Type", "application/json")]
             (js "{'error':'無効なリクエストです。'}")),
       checked env from_address fresh).
Proof.
  assert (invalid_request (Event.BodyText "{not json")
          ∨ not_serializable (Event.BodyText "{not json")) as Hbad
    by (left; vm_compute; exact I).
  split; [vm_compute; reflexivity|]. split; [exact Hbad|].
  unfold post.
  rewrite (proj1 (bad_request_iff_invalid (at_noon (Some "secret") unreachable)
                    from_address (Event.BodyText "{not json") fresh
                    ltac:(vm_compute; reflexivity)) Hbad).
  vm_compute. reflexivity.
Defined.

Lemma admission_recorded_before_method_check_witness :
  let env := at_noon None unreachable in
  let event := Event.mk (Some from_address) (Some "GET") Event.BodyUndefined in
  admits env from_address fresh = true
  ∧ rateLimit (handler env event fresh).2 !! "203.0.113.7"
    = Some [1761480000000]
  ∧ (handler env event fresh).1
    = Ok (Reply.mk 405
            [("Content-Type", "application/json"); ("Allow", "POST")]
            (js "{'error':'Method not allowed'}")).
Proof.
  pose proof (admission_recorded_before_method_check
                (at_noon None unreachable) from_address (Some "GET")
                Event.BodyUndefined fresh ltac:(vm_compute; reflexivity))
    as [Hstore Hreply].
  split; [vm_compute; reflexivity|]. split.
  - rewrite Hstore. vm_compute; reflexivity.
  - rewrite Hreply by discriminate. vm_compute. reflexivity.
Defined.

Lemma missing_credential_is_500_without_call_witness :
  let env := at_noon None (answering 200 "{}") in
  truthy (GEMINI_API_KEY env) = false
  ∧ (handler env (post valid_body) fresh).1
    = Ok (Reply.mk 500 [("Content-Type", "application/json")]
            (js "{'error':'サーバー設定エラー。管理者に連絡してください。'}"))
  ∧ fetches (effects (handler env (post valid_body) fresh).2) = [].
Proof.
  pose proof (missing_credential_is_500_without_call
                (at_noon None (answering 200 "{}")) from_address valid_body
                fresh empty_contents
                ltac:(vm_compute; reflexivity) ltac:(vm_compute; reflexivity)
                ltac:(vm_compute; reflexivity) ltac:(vm_compute; reflexivity))
    as [Hreply Hcalls].
  split; [vm_compute; reflexivity|]. split.
  - unfold post. rewrite Hreply. vm_compute. reflexivity.
  - unfold post. rewrite Hcalls. reflexivity.
Defined.

Lemma upstream_failure_translated_witness :
  let env := at_noon (Some "secret") (answering 503 "Service Unavailable") in
  Upstream.ok (Upstream.mkResponse 503 (Some "Service Unavailable")) = false
  ∧ (handler env (post valid_body) fresh).1
    = Ok (Reply.mk 500 [("Content-Type", "application/json")]
            (js "{'error':'Gemini APIの呼び出しに失敗しました。'}")).
Proof.
  split; [vm_compute; reflexivity|].
  unfold post.
  rewrite (upstream_failure_translated
             (at_noon (Some "secret") (answering 503 "Service Unavailable"))
             from_address valid_body fresh empty_contents
             ltac:(vm_compute; reflexivity) ltac:(vm_compute; reflexivity)
             ltac:(vm_compute; reflexivity)
             (js "{'contents':[]}")
             (Upstream.mkResponse 503 (Some "Service Unavailable"))
             ltac:(vm_compute; reflexivity) ltac:(vm_compute; reflexivity)
             ltac:(vm_compute; reflexivity) ltac:(vm_compute; reflexivity)).
  vm_compute. reflexivity.
Defined.

(** C6 as stated fails for a successful upstream response whose body is
    not JSON: [response.json()] rejects at line 117 and the [catch] of
    lines 129-137 answers with the generic 500. *)
Lemma successful_answer_that_is_not_JSON_gets_500 :
  let env := at_noon (Some "secret") (answering 200 "<html>") in
  Upstream.ok (Upstream.mkResponse 200 (Some "<html>")) = true
  ∧ (handler env (post valid_body) fresh).1
    = Ok (Reply.mk 500 [("Content-Type", "application/json")]
            (js "{'error':'サーバーエラーが発生しました。'}"))
  ∧ fetches (effects (handler env (post valid_body) fresh).2)
    = [(GOOGLE_API_URL "secret",
        Upstream.mkInit "POST" [("Content-Type", "application/json")]
          (js "{'contents':[]}"))].
Proof. vm_compute. repeat split; reflexivity. Qed.

Lemma payload_and_answer_relayed_verbatim_witness :
  let env := at_noon (Some "secret") (answering 200 (js "{ 'foo' : 'bar' }")) in
  truthy (GEMINI_API_KEY env) = true
  ∧ (handler env (post valid_body) fresh).1
    = Ok (Reply.mk 200
            [("Content-Type", "application/json");
             ("Cache-Control", "no-store, no-cache, must-revalidate");
             ("X-Content-Type-Options", "nosniff")]
            (js "{'foo':'bar'}"))
  ∧ fetches (effects (handler env (post valid_body) fresh).2)
    = [(GOOGLE_API_URL "secret",
        Upstream.mkInit "POST" [("Content-Type", "application/json")]
          (js "{'contents':[]}"))].
Proof.
  destruct (payload_and_answer_relayed_verbatim
              (at_noon (Some "secret") (answering 200 (js "{ 'foo' : 'bar' }")))
              from_address valid_body fresh empty_contents
              ltac:(vm_compute; reflexivity) ltac:(vm_compute; reflexivity)
              ltac:(vm_compute; reflexivity) ltac:(vm_compute; reflexivity))
    as (payload & Hpayload & Hcall & Hreply).
  assert (payload = js "{'contents':[]}") as ->
    by (vm_compute in Hpayload; by injection Hpayload as <-).
  split; [vm_compute; reflexivity|]. split.
  - unfold post.
    rewrite (Hreply (Upstream.mkResponse 200 (Some (js "{ 'foo' : 'bar' }")))
               (JObject [("foo", JString "bar")]) (js "{'foo':'bar'}")
               ltac:(vm_compute; reflexivity) ltac:(vm_compute; reflexivity)
               ltac:(vm_compute; reflexivity) ltac:(vm_compute; reflexivity)).
    reflexivity.
  - unfold post. rewrite Hcall. vm_compute; reflexivity.
Defined.

(** The examples of the specification, run on the reference built-ins. *)

Example empty_contents_passes :
  JSON_stringify empty_contents = Ok (js "{'contents':[]}")
  ∧ Validator.validateRequest empty_contents = Ok true.
Proof. vm_compute. split; reflexivity. Qed.

Example contents_must_be_an_array :
  parse_and_validate (Event.BodyText (js "{'contents': 'not-an-array'}"))
  = Throw (Error "Invalid contents format").
Proof. vm_compute. reflexivity. Qed.

Example top_level_array_is_rejected_by_its_contents :
  parse_and_validate (Event.BodyText "[]")
  = Throw (Error "Invalid contents format").
Proof. vm_compute. reflexivity. Qed.

Example null_body_is_rejected :
  parse_and_validate Event.BodyNull = Throw (Error "Invalid request body").
Proof. vm_compute. reflexivity. Qed.

Example oversized_payload_is_rejected :
  Validator.validateRequest
    (JObject [("contents", JArray []);
              ("padding", JString (string_of_list_ascii
                                     (replicate (Z.to_nat 100000) "a"%char)))])
  = Throw (Error "Request payload too large").
Proof. vm_compute. reflexivity. Qed.

Example nested_payload_is_rejected_by_the_serialiser :
  parse_and_validate nested_body
  = Throw (RangeError "Maximum call stack size exceeded").
Proof. vm_compute. reflexivity. Qed.

Example upstream_429_is_429 :
  (handler (at_noon (Some "secret") (answering 429 "{}")) (post valid_body)
           fresh).1
  = Ok (Reply.mk 429 [("Content-Type", "application/json")]
          (js "{'error':'APIのレート制限に達しました。しばらくしてから再度お試しください。'}")).
Proof. vm_compute. reflexivity. Qed.

Example nested_answer_is_500 :
  match nested_body with
  | Event.BodyText answer =>
      (handler (at_noon (Some "secret") (answering 200 answer))
               (post valid_body) fresh).1
      = Ok (Reply.mk 500 [("Content-Type", "application/json")]
              (js "{'error':'サーバーエラーが発生しました。'}"))
  | _ => True
  end.
Proof. vm_compute. reflexivity. Qed.

Example empty_credential_is_500 :
  handler (at_noon (Some "") unreachable) (post valid_body) fresh
  = (Ok (Reply.mk 500 [("Content-Type", "application/json")]
           (js "{'error':'サーバー設定エラー。管理者に連絡してください。'}")),
     World {[ "203.0.113.7" := [1761480000000] ]}
       [ConsoleError [LogText "GEMINI_API_KEY is not configured"]]).
Proof. vm_compute. reflexivity. Qed.

End HandlerFacts.

(** * Further properties of the rate limiter *)

Module RateLimiterMore.
Import RateLimiter StoredArrays.

(** *** One call, seen from one address *)

Lemma checkRateLimit_own now ip (rl rl' : store) :
  rl !! ip = rl' !! ip →
  (checkRateLimit now ip rl).1 = (checkRateLimit now ip rl').1
  ∧ (checkRateLimit now ip rl).2 !! ip = (checkRateLimit now ip rl').2 !! ip.
Proof.
  intros Heq. rewrite !RateLimiterFacts.checkRateLimit_unfold. cbv zeta.
  rewrite Heq. case_bool_decide; simpl; [done|].
  by rewrite !lookup_insert_eq.
Qed.

Lemma checkRateLimit_other now ip ip' (rl : store) :
  ip ≠ ip' → (checkRateLimit now ip rl).2 !! ip' = rl !! ip'.
Proof.
  intros Hne. rewrite RateLimiterFacts.checkRateLimit_unfold. cbv zeta.
  case_bool_decide; simpl; [done|]. by rewrite lookup_insert_ne.
Qed.

Lemma run_restricted ip calls : ∀ rl rl' : store,
  rl !! ip = rl' !! ip →
  filter (λ c, who c = ip) (run calls rl).2
  = (run (filter (λ call, call.1 = ip) calls) rl').2
  ∧ (run calls rl).1 !! ip
    = (run (filter (λ call, call.1 = ip) calls) rl').1 !! ip.
Proof.
  induction calls as [|[ip0 now] calls IH]; intros rl rl' Heq; [done|].
  rewrite RateLimiterFacts.run_cons. simpl.
  destruct (decide (ip0 = ip)) as [->|Hne].
  - rewrite (filter_cons_True (λ call, call.1 = ip)) by done.
    rewrite RateLimiterFacts.run_cons. simpl.
    destruct (checkRateLimit_own now ip rl rl' Heq) as [Hans Hst].
    rewrite filter_cons_True by done.
    destruct (IH _ _ Hst) as [IH1 IH2].
    rewrite IH1, IH2, Hans. done.
  - rewrite (filter_cons_False (λ call, call.1 = ip)) by done.
    rewrite filter_cons_False by done.
    apply IH. by rewrite checkRateLimit_other.
Qed.

(** X1.  Addresses do not share quota: in any interleaving of calls, the
    answers given to one address, and what ends up stored for it, are
    those of the run in which only that address calls. *)
Theorem addresses_are_independent (ip : string) (calls : list (string * Z)) :
  filter (λ c, who c = ip) (run calls rateLimit0).2
  = (run (filter (λ call, call.1 = ip) calls) rateLimit0).2
  ∧ (run calls rateLimit0).1 !! ip
    = (run (filter (λ call, call.1 = ip) calls) rateLimit0).1 !! ip.
Proof. by apply run_restricted. Qed.

(** *** What is stored, on any clock *)

Lemma checkRateLimit_spans now ip (rl : store) hist :
  spans_a_window rl hist →
  spans_a_window (checkRateLimit now ip rl).2
    (hist ++ [Check ip now (checkRateLimit now ip rl).1]).
Proof.
  intros Hinv who. specialize (Hinv who).
  rewrite RateLimiterFacts.checkRateLimit_unfold. cbv zeta.
  rewrite RateLimiterFacts.admissions_app.
  case_bool_decide as Hfull; simpl.
  - by rewrite RateLimiterFacts.admissions_rejected, app_nil_r.
  - destruct (decide (ip = who)) as [->|Hne].
    + rewrite lookup_insert_eq, RateLimiterFacts.admissions_admitted.
      exists now. rewrite !last_snoc. split; [done|]. split; [done|].
      apply Forall_app. split.
      * apply Forall_forall. intros t Ht.
        by apply list_elem_of_filter in Ht as [? _].
      * repeat constructor. unfold RATE_LIMIT_WINDOW. lia.
    + rewrite lookup_insert_ne by done.
      by rewrite RateLimiterFacts.admissions_other, app_nil_r.
Qed.

Lemma run_spans calls : ∀ (rl : store) hist,
  spans_a_window rl hist →
  spans_a_window (run calls rl).1 (hist ++ (run calls rl).2).
Proof.
  induction calls as [|[ip now] calls IH]; intros rl hist Hinv.
  - simpl. by rewrite app_nil_r.
  - rewrite RateLimiterFacts.run_cons. simpl.
    rewrite cons_middle, (assoc_L _ hist [_]).
    apply IH. by apply checkRateLimit_spans.
Qed.

(** X2.  Whatever the clock does, after any run from the empty [Map] an
    address that was never admitted has no entry, and the array of any
    other address is not empty, ends with the instant of its latest
    admission, and holds only instants less than 60000 ms before that
    one. *)
Theorem stored_array_spans_less_than_a_window
    (calls : list (string * Z)) (ip : string) :
  match (run calls rateLimit0).1 !! ip with
  | None => admissions ip (run calls rateLimit0).2 = []
  | Some ts =>
      ∃ latest, last ts = Some latest
                ∧ last (admissions ip (run calls rateLimit0).2) = Some latest
                ∧ Forall (λ t, latest - t < 60000) ts
  end.
Proof.
  apply (run_spans calls rateLimit0 []). intros who.
  unfold rateLimit0. by rewrite lookup_empty.
Qed.

(** *** What is stored, on a clock that never goes back *)

Lemma checkRateLimit_stores_recent t0 now ip (rl : store) hist :
  stores_recent_admissions t0 rl hist → t0 <= now →
  stores_recent_admissions now (checkRateLimit now ip rl).2
    (hist ++ [Check ip now (checkRateLimit now ip rl).1]).
Proof.
  intros Hinv Hle who. destruct (Hinv who) as [Hold Hst].
  assert (Forall (λ t, t <= now) (admissions who hist)) as Hold'
    by (eapply Forall_impl; [exact Hold|]; simpl; intros; lia).
  rewrite RateLimiterFacts.checkRateLimit_unfold. cbv zeta.
  unfold recent_admissions in *.
  rewrite RateLimiterFacts.admissions_app.
  case_bool_decide as Hfull; simpl.
  - by rewrite RateLimiterFacts.admissions_rejected, app_nil_r.
  - destruct (decide (ip = who)) as [->|Hne].
    + rewrite lookup_insert_eq, RateLimiterFacts.admissions_admitted.
      simpl. split; [apply Forall_app; split; [done|repeat constructor; lia]|].
      rewrite last_snoc, filter_app.
      rewrite (filter_cons_True _ now) by (unfold RATE_LIMIT_WINDOW; lia).
      rewrite filter_nil. f_equal. rewrite Hst.
      destruct (last (admissions who hist)) as [latest|] eqn:Hlast.
      * apply last_Some_elem_of in Hlast.
        rewrite Forall_forall in Hold'. specialize (Hold' _ Hlast).
        apply list_filter_filter_l. intros t. lia.
      * apply last_None in Hlast. by rewrite Hlast.
    + rewrite lookup_insert_ne by done.
      by rewrite RateLimiterFacts.admissions_other, app_nil_r.
Qed.

Lemma run_stores_recent calls : ∀ t0 (rl : store) hist,
  stores_recent_admissions t0 rl hist → Sorted Z.le (t0 :: calls.*2) →
  ∃ t1, stores_recent_admissions t1 (run calls rl).1 (hist ++ (run calls rl).2).
Proof.
  induction calls as [|[ip now] calls IH]; intros t0 rl hist Hinv Hs.
  - exists t0. simpl. by rewrite app_nil_r.
  - rewrite RateLimiterFacts.run_cons. simpl in *.
    apply Sorted_inv in Hs as [Hs Hhd]. apply HdRel_inv in Hhd.
    rewrite cons_middle, (assoc_L _ hist [_]). apply (IH now); [|done].
    by eapply checkRateLimit_stores_recent.
Qed.

(** X3.  On a clock that never goes back, what the [Map] holds for an
    address after a run from the empty [Map] is exactly, and in order, its
    admitted instants that lie less than 60000 ms before its latest
    admission (nothing if it was never admitted). *)
Theorem stored_array_is_the_recent_admissions
    (calls : list (string * Z)) (ip : string) :
  nondecreasing calls →
  default [] ((run calls rateLimit0).1 !! ip)
  = match last (admissions ip (run calls rateLimit0).2) with
    | Some latest =>
        filter (λ t, latest - t < 60000) (admissions ip (run calls rateLimit0).2)
    | None => []
    end.
Proof.
  intros Hs.
  assert (∃ t0, Sorted Z.le (t0 :: calls.*2)) as [t0 Hs0].
  { unfold nondecreasing in Hs. destruct calls as [|[ip0 now] calls].
    - exists 0. repeat constructor.
    - exists now. simpl in *. constructor; [done|]. constructor. lia. }
  destruct (run_stores_recent calls t0 rateLimit0 []) as [t1 Ht1]; [|done|].
  - intros who. unfold rateLimit0, recent_admissions.
    rewrite lookup_empty. split; [constructor|done].
  - apply Ht1.
Qed.

Lemma stored_array_is_the_recent_admissions_witness :
  let calls := [("203.0.113.7", 0); ("198.51.100.2", 10); ("203.0.113.7", 59999);
                ("203.0.113.7", 60000)] in
  nondecreasing calls
  ∧ (run calls rateLimit0).1 !! "203.0.113.7" = Some [59999; 60000].
Proof.
  assert (nondecreasing
            [("203.0.113.7", 0); ("198.51.100.2", 10); ("203.0.113.7", 59999);
             ("203.0.113.7", 60000)]) as Hs.
  { unfold nondecreasing. simpl.
    repeat first [apply Sorted_cons | apply Sorted_nil
                 | apply HdRel_cons | apply HdRel_nil]; lia. }
  split; [exact Hs|].
  pose proof (stored_array_is_the_recent_admissions _ "203.0.113.7" Hs) as Heq.
  destruct (_ !! "203.0.113.7") as [ts|] eqn:Hts; simpl in Heq.
  - rewrite Heq. vm_compute. reflexivity.
  - exfalso. vm_compute in Hts. discriminate.
Defined.

(** *** Stored instants come from the calls *)

Lemma checkRateLimit_keeps (P : Z → Prop) now ip (rl : store) :
  P now → map_Forall (λ _ ts, Forall P ts) rl →
  map_Forall (λ _ ts, Forall P ts) (checkRateLimit now ip rl).2.
Proof.
  intros Hnow Hall. rewrite RateLimiterFacts.checkRateLimit_unfold. cbv zeta.
  case_bool_decide; simpl; [done|].
  apply map_Forall_insert_2; [|done].
  apply Forall_app. split; [|by repeat constructor].
  apply Forall_forall. intros t Ht. apply list_elem_of_filter in Ht as [_ Ht].
  destruct (rl !! ip) as [ts|] eqn:Hts; simpl in Ht.
  - specialize (Hall _ _ Hts). simpl in Hall.
    rewrite Forall_forall in Hall. by apply Hall.
  - by apply elem_of_nil in Ht.
Qed.

Lemma run_keeps (P : Z → Prop) calls : ∀ rl : store,
  Forall (λ call, P call.2) calls →
  map_Forall (λ _ ts, Forall P ts) rl →
  map_Forall (λ _ ts, Forall P ts) (run calls rl).1.
Proof.
  induction calls as [|[ip now] calls IH]; intros rl Hcalls Hall; [done|].
  rewrite RateLimiterFacts.run_cons. simpl.
  apply Forall_cons in Hcalls as [Hnow Hcalls].
  apply IH; [done|]. by apply checkRateLimit_keeps.
Qed.

(** X4.  A quiet minute clears the quota: when every call so far was made
    at least 60000 ms before [now], the call at [now] is admitted, for any
    address and however many requests were admitted or rejected before,
    and the array of the address is reset to that single instant. *)
Theorem quiet_minute_clears_the_quota
    (calls : list (string * Z)) (ip : string) (now : Z) :
  Forall (λ call, call.2 + 60000 <= now) calls →
  checkRateLimit now ip (run calls rateLimit0).1
  = (true, <[ip := [now]]> (run calls rateLimit0).1).
Proof.
  intros Hquiet.
  pose proof (run_keeps (λ t, t + 60000 <= now) calls rateLimit0 Hquiet
                (map_Forall_empty _)) as Hold.
  rewrite RateLimiterFacts.checkRateLimit_unfold. cbv zeta.
  assert (filter (recent now) (default [] ((run calls rateLimit0).1 !! ip)) = [])
    as ->.
  { destruct (_ !! ip) as [ts|] eqn:Hts; simpl; [|done].
    specialize (Hold _ _ Hts). simpl in Hold. clear Hts.
    induction Hold as [|t ts Ht _ IH]; [done|].
    rewrite filter_cons_False by (unfold RATE_LIMIT_WINDOW; lia). exact IH. }
  rewrite bool_decide_eq_false_2
    by (unfold MAX_REQUESTS_PER_WINDOW; simpl; lia).
  done.
Qed.

Lemma quiet_minute_clears_the_quota_witness :
  let calls := replicate 40 ("203.0.113.7", 5) in
  Forall (λ call, call.2 + 60000 <= 60005) calls
  ∧ (checkRateLimit 60004 "203.0.113.7" (run calls rateLimit0).1).1 = false
  ∧ (checkRateLimit 60005 "203.0.113.7" (run calls rateLimit0).1).1 = true.
Proof.
  assert (Forall (λ call : string * Z, call.2 + 60000 <= 60005)
            (replicate 40 ("203.0.113.7", 5))) as Hquiet
    by (apply Forall_replicate; simpl; lia).
  split; [exact Hquiet|]. split; [vm_compute; reflexivity|].
  by rewrite (quiet_minute_clears_the_quota _ "203.0.113.7" 60005 Hquiet).
Defined.

(** *** The keys of the [Map] *)

Lemma dom_checkRateLimit now ip (rl : store) :
  dom (checkRateLimit now ip rl).2 = {[ip]} ∪ dom rl.
Proof.
  rewrite RateLimiterFacts.checkRateLimit_unfold. cbv zeta.
  case_bool_decide as Hfull; simpl; [|by rewrite dom_insert_L].
  destruct (rl !! ip) as [ts|] eqn:Hts.
  - apply elem_of_dom_2 in Hts. apply set_eq. intros x.
    rewrite elem_of_union, elem_of_singleton.
    split; [by right|]. by intros [->|?].
  - simpl in Hfull. unfold MAX_REQUESTS_PER_WINDOW in Hfull. lia.
Qed.

Lemma dom_run calls : ∀ rl : store,
  dom (run calls rl).1 = list_to_set calls.*1 ∪ dom rl.
Proof.
  induction calls as [|[ip now] calls IH]; intros rl.
  - simpl. by rewrite (left_id_L ∅ (∪)).
  - rewrite RateLimiterFacts.run_cons. cbn [fst].
    rewrite fmap_cons, list_to_set_cons, IH, dom_checkRateLimit. cbn [fst].
    by rewrite (assoc_L (∪)), (comm_L (∪) _ {[ip]}).
Qed.

(** X5.  No key is ever removed and every caller gets one: after a run
    from the empty [Map], its keys are exactly the addresses that have
    called, whether or not their requests are still within the window. *)
Theorem keys_are_the_addresses_seen (calls : list (string * Z)) :
  dom (run calls rateLimit0).1 = list_to_set calls.*1.
Proof.
  rewrite dom_run. unfold rateLimit0. by rewrite dom_empty_L, (right_id_L ∅ (∪)).
Qed.

(** *** Bursts *)

Lemma filter_recent_replicate (t : Z) (k : nat) :
  filter (recent t) (replicate k t) = replicate k t.
Proof.
  induction k as [|k IH]; [done|]. simpl.
  rewrite filter_cons_True by (unfold RATE_LIMIT_WINDOW; lia). by rewrite IH.
Qed.

Lemma run_burst ip t n : ∀ (k : nat) (rl : store),
  default [] (rl !! ip) = replicate k t → (k ≤ 30)%nat →
  admitted <$> (run (replicate n (ip, t)) rl).2
  = replicate (n `min` (30 - k)) true ++ replicate (n - (30 - k)) false.
Proof.
  induction n as [|n IH]; intros k rl Hst Hk; [done|].
  change (replicate (S n) (ip, t)) with ((ip, t) :: replicate n (ip, t)).
  rewrite RateLimiterFacts.run_cons. cbn [snd]. rewrite fmap_cons.
  cbn [admitted].
  rewrite RateLimiterFacts.checkRateLimit_unfold. cbv zeta.
  rewrite Hst, filter_recent_replicate, length_replicate.
  unfold MAX_REQUESTS_PER_WINDOW.
  case_bool_decide as Hfull; cbn [fst snd].
  - assert (k = 30)%nat as -> by lia.
    rewrite (IH 30%nat rl Hst) by lia.
    replace (30 - 30)%nat with 0%nat by lia.
    rewrite !Nat.min_0_r, !Nat.sub_0_r. done.
  - destruct (30 - k)%nat as [|m] eqn:Hm; [lia|].
    rewrite (IH (S k)).
    + replace (30 - S k)%nat with m by lia.
      replace (S n `min` S m)%nat with (S (n `min` m)) by lia.
      replace (S n - S m)%nat with (n - m)%nat by lia. done.
    + rewrite lookup_insert_eq. simpl.
      by rewrite <- replicate_cons_app.
    + lia.
Qed.

(** X6.  The capacity of a burst is exactly thirty: of [n] requests that
    an address so far unseen makes at one and the same instant, the first
    thirty are admitted and all the others rejected. *)
Theorem burst_capacity_is_thirty (ip : string) (t : Z) (n : nat) :
  admitted <$> (run (replicate n (ip, t)) rateLimit0).2
  = replicate (n `min` 30) true ++ replicate (n - 30) false.
Proof.
  apply (run_burst ip t n 0 rateLimit0); [|lia].
  unfold rateLimit0. by rewrite lookup_empty.
Qed.

End RateLimiterMore.

(** * Further properties of the validator and of the handler *)

Module HandlerMore.
Import JS RateLimiter Validator Handler Service.

Section WithBuiltins.
Context `{JSON_builtins}.

(** *** The validator *)

(** X7.  [validateRequest] checks the shape first, the [contents] second
    and the size last: [null] and primitives are an invalid request body;
    an array, or an object whose [contents] is missing or anything but an
    array (falsy or not), is an invalid contents format; a well-shaped
    object is serialised, and whatever [JSON.stringify] throws then
    leaves the validator as it is; otherwise the object is too large
    when its serialisation has more than 100000 characters and passes up
    to and including 100000. *)
Theorem validateRequest_verdicts (v : json) :
  validateRequest v
  = match v with
    | JObject _ =>
        if contents_is_array v
        then
          match JSON_stringify v with
          | Ok serialized =>
              if String_length serialized >? 100000
              then Throw (Error "Request payload too large")
              else Ok true
          | Throw e => Throw e
          end
        else Throw (Error "Invalid contents format")
    | JArray _ => Throw (Error "Invalid contents format")
    | _ => Throw (Error "Invalid request body")
    end.
Proof. apply HandlerFacts.validateRequest_cases. Qed.

(** *** One invocation *)

Lemma error_document (message : string) :
  plain message = true →
  ∃ document, JSON_stringify document = Ok (error_text message).
Proof. intros Hplain. eexists. by apply JSON_stringify_error. Qed.

Lemma forward_shape env (requestBody : json) (w w' : world) r :
  forward env requestBody w = (r, w') →
  ∃ reply, r = Ok reply
    ∧ (Reply.statusCode reply ∈ [200; 429; 500])
    ∧ (("Content-Type", "application/json") ∈ Reply.headers reply)
    ∧ (("Retry-After", "60") ∉ Reply.headers reply)
    ∧ ∃ document, JSON_stringify document = Ok (Reply.body reply).
Proof.
  rewrite HandlerFacts.forward_unfold. cbv zeta.
  assert (("Retry-After", "60")
          ∉ [("Content-Type", "application/json");
             ("Cache-Control", "no-store, no-cache, must-revalidate");
             ("X-Content-Type-Options", "nosniff")]) as Hthree.
  { intros Hin.
    repeat (apply elem_of_cons in Hin as [?|Hin]; [done|]).
    by apply elem_of_nil in Hin. }
  assert (("Retry-After", "60") ∉ [("Content-Type", "application/json")]) as Hone.
  { intros Hin. apply elem_of_cons in Hin as [?|Hin]; [done|].
    by apply elem_of_nil in Hin. }
  assert (∀ (status : Z) (message : string) (world' : world),
            status ∈ [200; 429; 500] → plain message = true →
            (Ok (Reply.mk status [("Content-Type", "application/json")]
                   (error_text message)), world') = (r, w') →
            ∃ reply, r = Ok reply
              ∧ (Reply.statusCode reply ∈ [200; 429; 500])
              ∧ (("Content-Type", "application/json") ∈ Reply.headers reply)
              ∧ (("Retry-After", "60") ∉ Reply.headers reply)
              ∧ ∃ document, JSON_stringify document = Ok (Reply.body reply))
    as Herror.
  { intros status message world' Hstatus Hplain [= <- _].
    eexists. split; [done|]. simpl. split; [done|].
    split; [repeat constructor|]. split; [done|].
    by apply error_document. }
  destruct (truthy (GEMINI_API_KEY env)); simpl;
    [|apply Herror; [repeat constructor|reflexivity]].
  destruct (JSON_stringify requestBody) as [payload|e];
    [|apply Herror; [repeat constructor|reflexivity]].
  destruct (upstream env _ _) as [response|e]; simpl;
    [|apply Herror; [repeat constructor|reflexivity]].
  destruct (Upstream.ok response); simpl.
  - destruct (json_of response) as [data|e];
      [|apply Herror; [repeat constructor|reflexivity]].
    destruct (JSON_stringify data) as [body|e] eqn:Hbody;
      [|apply Herror; [repeat constructor|reflexivity]].
    intros [= <- _]. eexists. split; [done|]. simpl.
    split; [repeat constructor|]. split; [repeat constructor|].
    split; [done|]. by exists data.
  - apply Herror; destruct (Upstream.status response =? 429);
      first [reflexivity | repeat constructor].
Qed.

Lemma handler_shape env h m b (w : world) :
  ∃ reply,
    (handler env (Event.mk (Some h) m b) w).1 = Ok reply
    ∧ (Reply.statusCode reply ∈ [200; 400; 405; 429; 500])
    ∧ (("Content-Type", "application/json") ∈ Reply.headers reply)
    ∧ (("Retry-After", "60") ∈ Reply.headers reply
       ↔ admits env h w = false)
    ∧ ∃ document, JSON_stringify document = Ok (Reply.body reply).
Proof.
  rewrite HandlerFacts.handler_unfold.
  destruct (admits env h w); simpl.
  - assert (∀ headers : list (string * string),
              ("Retry-After", "60") ∉ headers →
              ("Retry-After", "60") ∈ headers ↔ true = false) as Hno
      by (intros headers Hnot; split; [done|discriminate]).
    destruct (bool_decide (m = Some "POST")); simpl.
    + destruct (parse_and_validate b) as [requestBody|e]; simpl.
      * destruct (forward env requestBody (checked env h w)) as [r w'] eqn:Hf.
        apply forward_shape in Hf
          as (reply & -> & Hst & Hct & Hra & Hbody).
        exists reply. simpl. split; [done|].
        split; [|by auto].
        repeat (apply elem_of_cons in Hst as [->|Hst];
                [repeat constructor|]).
        by apply elem_of_nil in Hst.
      * eexists. split; [done|]. simpl.
        split; [repeat constructor|]. split; [repeat constructor|].
        split; [|by apply error_document]. apply Hno. intros Hin.
        repeat (apply elem_of_cons in Hin as [?|Hin]; [done|]).
        by apply elem_of_nil in Hin.
    + eexists. split; [done|]. simpl.
      split; [repeat constructor|]. split; [repeat constructor|].
      split; [|by apply error_document]. apply Hno. intros Hin.
      repeat (apply elem_of_cons in Hin as [?|Hin]; [done|]).
      by apply elem_of_nil in Hin.
  - eexists. split; [done|]. simpl.
    split; [repeat constructor|]. split; [repeat constructor|].
    split; [|by apply error_document].
    split; [done|]. intros _. repeat constructor.
Qed.

(** X8.  Every reply has one of the five statuses 200, 400, 405, 429 and
    500, carries [Content-Type: application/json], and has for body the
    serialisation of some document; the header [Retry-After: 60] is on
    the reply exactly when the rate limiter turned the request away, so
    a 429 relayed from the upstream never carries it. *)
Theorem replies_are_shaped env h m b (w : world) :
  ∃ reply,
    (handler env (Event.mk (Some h) m b) w).1 = Ok reply
    ∧ (Reply.statusCode reply ∈ [200; 400; 405; 429; 500])
    ∧ (("Content-Type", "application/json") ∈ Reply.headers reply)
    ∧ (("Retry-After", "60") ∈ Reply.headers reply
       ↔ admits env h w = false)
    ∧ ∃ document, JSON_stringify document = Ok (Reply.body reply).
Proof. apply handler_shape. Qed.

Lemma handler_turned_away env h m b (w : world) :
  turned_away (handler env (Event.mk (Some h) m b) w).1
  = negb (admits env h w).
Proof.
  destruct (handler_shape env h m b w) as (reply & -> & _ & _ & Hra & _).
  simpl. destruct (admits env h w); simpl.
  - apply bool_decide_eq_false_2. intros Hin. by apply Hra in Hin.
  - apply bool_decide_eq_true_2. by apply Hra.
Qed.

Lemma handler_rateLimit env h m b (w : world) :
  rateLimit (handler env (Event.mk (Some h) m b) w).2
  = (checkRateLimit (Date_now env) (clientIp_of h) (rateLimit w)).2.
Proof.
  by destruct (HandlerFacts.handler_replies env h m b w) as (reply & es & ->).
Qed.

(** X9.  The upstream is called at most once per invocation, and it is
    called exactly when every check has passed: the address is admitted,
    the method is POST, parsing and validation of the body succeed and
    the credential is set.  In particular no payload reaches the upstream
    without having passed validation. *)
Theorem upstream_called_iff_all_checks_pass env h m b (w : world) :
  let after := effects (handler env (Event.mk (Some h) m b) w).2 in
  let passes := admits env h w = true ∧ m = Some "POST"
                ∧ (∃ requestBody, parse_and_validate b = Ok requestBody)
                ∧ truthy (GEMINI_API_KEY env) = true in
  (passes → ∃ call, fetches after = fetches (effects w) ++ [call])
  ∧ (¬ passes → fetches after = fetches (effects w)).
Proof.
  cbv zeta. rewrite HandlerFacts.handler_unfold.
  destruct (admits env h w); simpl;
    [|split; [intros [? _]; discriminate|done]].
  destruct (bool_decide (m = Some "POST")) eqn:Hm; simpl.
  2: { apply bool_decide_eq_false_1 in Hm.
       split; [intros (_ & ? & _); done|done]. }
  apply bool_decide_eq_true_1 in Hm.
  destruct (parse_and_validate b) as [requestBody|e] eqn:Hpv.
  2: { split; [|done]. intros (_ & _ & [requestBody ?] & _). discriminate. }
  pose proof (proj1 (HandlerFacts.parse_and_validate_ok b requestBody) Hpv)
    as [_ Hv].
  destruct (HandlerFacts.validateRequest_passed _ _ Hv)
    as (_ & _ & _ & payload & Hpayload & _).
  rewrite HandlerFacts.forward_unfold. cbv zeta. rewrite Hpayload.
  destruct (truthy (GEMINI_API_KEY env)); simpl.
  - split; [intros _|intros Hnot; exfalso; apply Hnot; eauto].
    eexists. unfold fetches.
    destruct (upstream env _ _) as [response|e]; simpl.
    + destruct (Upstream.ok response); simpl.
      * destruct (json_of response) as [data|e]; simpl.
        -- destruct (JSON_stringify data); simpl;
             rewrite ?omap_app; simpl; by rewrite ?app_nil_r.
        -- rewrite !omap_app. simpl. by rewrite app_nil_r.
      * rewrite !omap_app. simpl. by rewrite app_nil_r.
    + rewrite !omap_app. simpl. by rewrite app_nil_r.
  - split; [intros (_ & _ & _ & ?); discriminate|intros _].
    unfold fetches. rewrite omap_app. simpl. by rewrite app_nil_r.
Qed.

(** X10.  The credential goes nowhere but into the address of the
    outbound call: with two different credentials, and an upstream that
    answers both alike, the reply, the lines logged and the [Map] are the
    same. *)
Theorem credential_is_not_echoed now key key' up up' event (w : world) :
  truthy (Some key) = true → truthy (Some key') = true →
  (∀ init, up (GOOGLE_API_URL key) init = up' (GOOGLE_API_URL key') init) →
  (handler (Env now (Some key) up) event w).1
  = (handler (Env now (Some key') up') event w).1
  ∧ logs (effects (handler (Env now (Some key) up) event w).2)
    = logs (effects (handler (Env now (Some key') up') event w).2)
  ∧ rateLimit (handler (Env now (Some key) up) event w).2
    = rateLimit (handler (Env now (Some key') up') event w).2.
Proof.
  intros Hkey Hkey' Hsame.
  destruct event as [[h|] m b]; [|done].
  rewrite !HandlerFacts.handler_unfold. unfold admits, checked. simpl.
  destruct (checkRateLimit now (clientIp_of h) (rateLimit w)) as [[] rl'];
    simpl; [|done].
  destruct (bool_decide (m = Some "POST")); simpl; [|done].
  destruct (parse_and_validate b) as [requestBody|e]; [|done].
  rewrite !HandlerFacts.forward_unfold. cbv zeta. simpl.
  simpl in Hkey, Hkey'. rewrite Hkey, Hkey'. simpl.
  destruct (JSON_stringify requestBody) as [payload|e]; [|done].
  rewrite <- Hsame. unfold logs.
  destruct (up _ _) as [response|e]; simpl.
  - destruct (Upstream.ok response); simpl.
    + destruct (json_of response) as [data|e]; simpl;
        [|rewrite ?omap_app; done].
      destruct (JSON_stringify data); simpl; rewrite ?omap_app; done.
    + rewrite !omap_app. done.
  - rewrite !omap_app. done.
Qed.

(** X11.  The address a request is counted under is chosen by the
    client: whatever the [Map] holds, and whatever other headers the
    request has, some value of [x-forwarded-for] gets it past the rate
    limiter. *)
Theorem forged_address_is_admitted env (h : gmap string string) (w : world) :
  ∃ address, admits env (<["x-forwarded-for" := address]> h) w = true.
Proof.
  pose (taken := {[""]} ∪ dom (rateLimit w) : gset string).
  exists (fresh taken).
  assert (fresh taken ∉ taken) as Hfresh by apply is_fresh.
  assert (fresh taken ≠ "") as Hne.
  { intros Heq. apply Hfresh. rewrite Heq. unfold taken.
    apply elem_of_union. left. by apply elem_of_singleton. }
  assert (rateLimit w !! fresh taken = None) as Hnone.
  { apply not_elem_of_dom. intros Hin. apply Hfresh. unfold taken.
    apply elem_of_union. by right. }
  assert (clientIp_of (<["x-forwarded-for" := fresh taken]> h) = fresh taken)
    as Hip.
  { unfold clientIp_of, or_else, truthy. rewrite lookup_insert_eq.
    apply String.eqb_neq in Hne. rewrite Hne. simpl. by rewrite Hne. }
  unfold admits. rewrite Hip, RateLimiterFacts.checkRateLimit_unfold.
  cbv zeta. rewrite Hnone. done.
Qed.

(** X12.  An invocation changes the [Map] only under the address of its
    request, and only adds to the effects: the arrays of all other
    addresses are as they were, and what was logged or sent before is
    still there, in front. *)
Theorem invocation_touches_only_its_address env h m b (w : world) ip :
  ip ≠ clientIp_of h →
  rateLimit (handler env (Event.mk (Some h) m b) w).2 !! ip
  = rateLimit w !! ip
  ∧ effects w `prefix_of` effects (handler env (Event.mk (Some h) m b) w).2.
Proof.
  intros Hne. split.
  - rewrite handler_rateLimit. by apply RateLimiterMore.checkRateLimit_other.
  - destruct (HandlerFacts.handler_replies env h m b w) as (reply & es & ->).
    simpl. by apply prefix_app_r.
Qed.

Lemma forward_reply_any_state env (requestBody : json) (w w' : world) :
  (forward env requestBody w).1 = (forward env requestBody w').1.
Proof.
  rewrite !HandlerFacts.forward_unfold. cbv zeta.
  destruct (truthy (GEMINI_API_KEY env)); simpl; [|done].
  destruct (JSON_stringify requestBody) as [payload|e]; [|done].
  destruct (upstream env _ _) as [response|e]; simpl; [|done].
  destruct (Upstream.ok response); simpl; [|done].
  destruct (json_of response) as [data|e]; [|done].
  by destruct (JSON_stringify data).
Qed.

(** X15.  The reply to a request depends on the state of the process
    only through the array stored for the address of the request: what
    other addresses have stored, and what was logged or sent before,
    makes no difference. *)
Theorem reply_depends_only_on_own_array env h m b (w w' : world) :
  rateLimit w !! clientIp_of h = rateLimit w' !! clientIp_of h →
  (handler env (Event.mk (Some h) m b) w).1
  = (handler env (Event.mk (Some h) m b) w').1.
Proof.
  intros Hsame. rewrite !HandlerFacts.handler_unfold. unfold admits.
  destruct (RateLimiterMore.checkRateLimit_own (Date_now env) (clientIp_of h)
              (rateLimit w) (rateLimit w') Hsame) as [-> _].
  destruct (checkRateLimit _ _ (rateLimit w')).1; simpl; [|done].
  destruct (bool_decide (m = Some "POST")); simpl; [|done].
  destruct (parse_and_validate b); [|done].
  apply forward_reply_any_state.
Qed.

(** X16.  The address a request is counted under is the value of
    [x-forwarded-for] when that header is there and not empty, else the
    value of [client-ip] when that one is there and not empty, else the
    literal [unknown]; it is never the empty string. *)
Theorem address_of_a_request (h : gmap string string) :
  (∀ a, h !! "x-forwarded-for" = Some a → a ≠ "" → clientIp_of h = a)
  ∧ (∀ a, (h !! "x-forwarded-for" = None ∨ h !! "x-forwarded-for" = Some "") →
          h !! "client-ip" = Some a → a ≠ "" → clientIp_of h = a)
  ∧ ((h !! "x-forwarded-for" = None ∨ h !! "x-forwarded-for" = Some "") →
     (h !! "client-ip" = None ∨ h !! "client-ip" = Some "") →
     clientIp_of h = "unknown")
  ∧ clientIp_of h ≠ "".
Proof.
  unfold clientIp_of, or_else, truthy.
  split; [|split; [|split]].
  - intros a -> Ha. apply String.eqb_neq in Ha. rewrite Ha. simpl.
    by rewrite Ha.
  - intros a Hx -> Ha. apply String.eqb_neq in Ha.
    destruct Hx as [->| ->]; simpl; rewrite ?Ha; simpl; by rewrite ?Ha.
  - by intros [->| ->] [->| ->].
  - destruct (h !! "x-forwarded-for") as [a|];
      destruct (h !! "client-ip") as [c|]; simpl;
      repeat match goal with
             | |- context [String.eqb ?s ""] =>
                 let E := fresh "E" in
                 destruct (String.eqb_spec s "") as [E|E]; simpl
             end; try done; by subst.
Qed.

(** *** Invocations one after the other *)

Lemma serve_cons env event rest (w : world) :
  serve ((env, event) :: rest) w
  = ((handler env event w).1 :: (serve rest (handler env event w).2).1,
     (serve rest (handler env event w).2).2).
Proof.
  simpl. destruct (handler env event w) as [r w']. simpl.
  by destruct (serve rest w') as [rs w''].
Qed.

Lemma admissions_cons ip c answers :
  admissions ip (c :: answers) = admissions ip [c] ++ admissions ip answers.
Proof. apply (RateLimiterFacts.admissions_app ip [c] answers). Qed.

Lemma serve_run requests : ∀ w : world,
  Forall (λ request, is_Some (Event.headers request.2)) requests →
  rateLimit (serve requests w).2
  = (run (omap call_of requests) (rateLimit w)).1
  ∧ turned_away <$> (serve requests w).1
    = (λ c, negb (admitted c)) <$> (run (omap call_of requests) (rateLimit w)).2
  ∧ ∀ ip, let_through ip requests (serve requests w).1
          = admissions ip (run (omap call_of requests) (rateLimit w)).2.
Proof.
  induction requests as [|[env [[h|] m b]] requests IH]; intros w Hall.
  - done.
  - apply Forall_cons in Hall as [_ Hall].
    rewrite serve_cons. cbn [fst snd].
    change (omap call_of ((env, Event.mk (Some h) m b) :: requests))
      with ((clientIp_of h, Date_now env) :: omap call_of requests).
    rewrite RateLimiterFacts.run_cons. cbn [fst snd].
    destruct (IH (handler env (Event.mk (Some h) m b) w).2 Hall)
      as (IH1 & IH2 & IH3).
    rewrite handler_rateLimit in IH1, IH2, IH3.
    split; [done|]. split.
    + rewrite !fmap_cons, IH2, handler_turned_away. done.
    + intros ip. rewrite admissions_cons, <- IH3.
      unfold let_through at 1. cbn [zip zip_with omap list_omap].
      unfold call_of at 1. cbn [Event.headers snd fst mbind option_bind].
      rewrite handler_turned_away, negb_involutive. unfold admits.
      destruct (checkRateLimit (Date_now env) (clientIp_of h) (rateLimit w))
        as [allowed rl']. cbn [fst snd].
      case_bool_decide as Hip; cbn [andb].
      * subst ip. destruct allowed.
        -- by rewrite RateLimiterFacts.admissions_admitted.
        -- by rewrite RateLimiterFacts.admissions_rejected.
      * by rewrite RateLimiterFacts.admissions_other.
  - apply Forall_cons in Hall as [[? Hnone] _]. discriminate.
Qed.

(** X13.  Over the life of a process the handler drives the rate limiter
    call by call: after any sequence of invocations whose events carry
    headers, the [Map] is the one that the run of their checks (address,
    instant) leaves, and the replies with [Retry-After] are exactly those
    of the requests the run rejects, whatever their methods, bodies and
    upstream answers were. *)
Theorem process_follows_the_limiter
    (requests : list (environment * Event.t)) (w : world) :
  Forall (λ request, is_Some (Event.headers request.2)) requests →
  rateLimit (serve requests w).2
  = (run (omap call_of requests) (rateLimit w)).1
  ∧ turned_away <$> (serve requests w).1
    = (λ c, negb (admitted c)) <$> (run (omap call_of requests) (rateLimit w)).2.
Proof.
  intros Hall. destruct (serve_run requests w Hall) as (H1 & H2 & _). done.
Qed.

(** X14.  End to end, on a clock that never goes back and in a process
    that starts with the empty [Map]: of the requests of one address
    whose instants fall in any trailing window of 60000 ms, at most 30
    get a reply other than the 429 with [Retry-After]; hence at most 30
    of them can reach the upstream. *)
Theorem at_most_thirty_let_through_per_window
    (requests : list (environment * Event.t)) (es : list effect)
    (ip : string) (T : Z) :
  Forall (λ request, is_Some (Event.headers request.2)) requests →
  nondecreasing (omap call_of requests) →
  Z.of_nat (length (in_window T
                      (let_through ip requests
                         (serve requests (World rateLimit0 es)).1)))
  <= 30.
Proof.
  intros Hall Hs.
  destruct (serve_run requests (World rateLimit0 es) Hall) as (_ & _ & ->).
  simpl.
  assert (∃ t0, Sorted Z.le (t0 :: (omap call_of requests).*2)) as [t0 Hs0].
  { unfold nondecreasing in Hs.
    destruct (omap call_of requests) as [|[who now] calls].
    - exists 0. repeat constructor.
    - exists now. simpl in *. constructor; [done|]. constructor. lia. }
  destruct (RateLimiterFacts.run_consistent (omap call_of requests) t0
              rateLimit0 [] (RateLimiterFacts.consistent_empty t0) Hs0)
    as [t1 Ht1].
  destruct (Ht1 ip) as (_ & _ & Hwin). apply Hwin.
Qed.

End WithBuiltins.

(** *** On concrete requests *)

Import Reference Scenario.

Lemma upstream_called_iff_all_checks_pass_witness :
  let env := at_noon (Some "secret") unreachable in
  (admits env from_address fresh = true
   ∧ Some "POST" = Some "POST"
   ∧ (∃ requestBody, parse_and_validate valid_body = Ok requestBody)
   ∧ truthy (GEMINI_API_KEY env) = true)
  ∧ ∃ call, fetches (effects (handler env (post valid_body) fresh).2)
            = fetches (effects fresh) ++ [call].
Proof.
  assert (admits (at_noon (Some "secret") unreachable) from_address fresh = true
          ∧ Some "POST" = Some "POST"
          ∧ (∃ requestBody, parse_and_validate valid_body = Ok requestBody)
          ∧ truthy (GEMINI_API_KEY (at_noon (Some "secret") unreachable)) = true)
    as Hpasses.
  { split; [vm_compute; reflexivity|]. split; [reflexivity|].
    split; [|vm_compute; reflexivity].
    exists empty_contents. vm_compute. reflexivity. }
  split; [exact Hpasses|].
  apply (proj1 (upstream_called_iff_all_checks_pass
                  (at_noon (Some "secret") unreachable)
                  from_address (Some "POST") valid_body fresh) Hpasses).
Defined.

Lemma credential_is_not_echoed_witness :
  let up := answering 200 (js "{'candidates':[]}") in
  truthy (Some "secret-a") = true ∧ truthy (Some "secret-b") = true
  ∧ (handler (Env 1761480000000 (Some "secret-a") up) (post valid_body) fresh).1
    = (handler (Env 1761480000000 (Some "secret-b") up) (post valid_body) fresh).1.
Proof.
  split; [reflexivity|]. split; [reflexivity|].
  apply (credential_is_not_echoed 1761480000000 "secret-a" "secret-b"
           (answering 200 (js "{'candidates':[]}"))
           (answering 200 (js "{'candidates':[]}"))
           (post valid_body) fresh);
    [reflexivity|reflexivity|reflexivity].
Defined.

Lemma invocation_touches_only_its_address_witness :
  let w := World {[ "198.51.100.2" := [5; 6] ]} [] in
  "198.51.100.2" ≠ clientIp_of from_address
  ∧ rateLimit (handler (at_noon None unreachable) (post valid_body) w).2
      !! "198.51.100.2"
    = Some [5; 6].
Proof.
  assert ("198.51.100.2" ≠ clientIp_of from_address) as Hne
    by (vm_compute; discriminate).
  split; [exact Hne|].
  unfold post.
  rewrite (proj1 (invocation_touches_only_its_address
                    (at_noon None unreachable) from_address (Some "POST")
                    valid_body _ "198.51.100.2" Hne)).
  reflexivity.
Defined.

Lemma reply_depends_only_on_own_array_witness :
  let busy := World {[ "198.51.100.2" := replicate 30 1761480000000 ]}
                [ConsoleError [LogText "earlier"]] in
  rateLimit fresh !! clientIp_of from_address
  = rateLimit busy !! clientIp_of from_address
  ∧ (handler (at_noon None unreachable) (post valid_body) fresh).1
    = (handler (at_noon None unreachable) (post valid_body) busy).1.
Proof.
  assert (rateLimit fresh !! clientIp_of from_address
          = rateLimit (World {[ "198.51.100.2" := replicate 30 1761480000000 ]}
                         [ConsoleError [LogText "earlier"]])
              !! clientIp_of from_address) as Hsame
    by (vm_compute; reflexivity).
  split; [exact Hsame|].
  apply (reply_depends_only_on_own_array (at_noon None unreachable)
           from_address (Some "POST") valid_body _ _ Hsame).
Defined.

Lemma address_of_a_request_witness :
  let h : gmap string string :=
    {[ "x-forwarded-for" := ""; "client-ip" := "198.51.100.2" ]} in
  (h !! "x-forwarded-for" = None ∨ h !! "x-forwarded-for" = Some "")
  ∧ h !! "client-ip" = Some "198.51.100.2"
  ∧ clientIp_of h = "198.51.100.2".
Proof.
  split; [right; vm_compute; reflexivity|].
  split; [vm_compute; reflexivity|].
  apply (proj1 (proj2 (address_of_a_request
                         {[ "x-forwarded-for" := ""; "client-ip" := "198.51.100.2" ]}))
           "198.51.100.2");
    [right; vm_compute; reflexivity|vm_compute; reflexivity|discriminate].
Defined.

Lemma process_follows_the_limiter_witness :
  let requests :=
    replicate 31 (at_noon None unreachable,
                  Event.mk (Some from_address) (Some "GET") Event.BodyNull) in
  Forall (λ request, is_Some (Event.headers request.2)) requests
  ∧ turned_away <$> (serve requests fresh).1 = replicate 30 false ++ [true].
Proof.
  assert (Forall (λ request : environment * Event.t,
                    is_Some (Event.headers request.2))
            (replicate 31 (at_noon None unreachable,
                           Event.mk (Some from_address) (Some "GET")
                             Event.BodyNull))) as Hall
    by (apply Forall_replicate; simpl; eauto).
  split; [exact Hall|].
  rewrite (proj2 (process_follows_the_limiter _ fresh Hall)).
  vm_compute. reflexivity.
Defined.

Lemma at_most_thirty_let_through_per_window_witness :
  let requests :=
    replicate 31 (at_noon None unreachable,
                  Event.mk (Some from_address) (Some "GET") Event.BodyNull) in
  Forall (λ request, is_Some (Event.headers request.2)) requests
  ∧ nondecreasing (omap call_of requests)
  ∧ Z.of_nat (length (in_window 1761480000000
                        (let_through "203.0.113.7" requests
                           (serve requests (World rateLimit0 [])).1)))
    <= 30.
Proof.
  assert (Forall (λ request : environment * Event.t,
                    is_Some (Event.headers request.2))
            (replicate 31 (at_noon None unreachable,
                           Event.mk (Some from_address) (Some "GET")
                             Event.BodyNull))) as Hall
    by (apply Forall_replicate; simpl; eauto).
  assert (nondecreasing
            (omap call_of
               (replicate 31 (at_noon None unreachable,
                              Event.mk (Some from_address) (Some "GET")
                                Event.BodyNull)))) as Hs.
  { unfold nondecreasing. simpl.
    repeat first [apply Sorted_cons | apply Sorted_nil
                 | apply HdRel_cons | apply HdRel_nil]; lia. }
  split; [exact Hall|]. split; [exact Hs|].
  apply (at_most_thirty_let_through_per_window _ [] "203.0.113.7"
           1761480000000 Hall Hs).
Defined.

(** The limiter and the handler together, on the reference built-ins:
    thirty-one GET requests at one instant get thirty 405 and one 429. *)
Example thirty_one_requests :
  (λ r, match r with Ok reply => Reply.statusCode reply | Throw _ => 0 end)
    <$> (serve (replicate 31 (at_noon None unreachable,
                              Event.mk (Some from_address) (Some "GET")
                                Event.BodyNull)) fresh).1
  = replicate 30 405 ++ [429].
Proof. vm_compute. reflexivity. Qed.

End HandlerMore.
